(** * RCNLP: reservoir-computing experiment scripts, shallow embedding

    The development follows the Python sources:
    - [core/converters/RCNLPTagConverter.py]   (module [RCNLPTagConverter]),
    - [author_clustering.py]                   (module [AuthorClustering]),
    - [author_clustering_document_embeddings.py] (module [DocumentEmbeddings]).

    Python and numpy run-time behaviour that the scripts rely on (exceptions,
    negative indices, slices, [int()], [list.sort], [np.vstack]) is written
    out in module [Py].

    Numbers.  The image generation of [author_clustering.py] is embedded
    twice.  Module [AuthorClusteringDoubles] computes as Python does, in
    IEEE 754 binary64 (module [Doubles]: every operation is the exact result
    rounded to the nearest double, ties to even); it carries the statements
    that depend on the numbers.  Module [AuthorClustering] reads the same
    code over exact rationals [Q]; it carries the main block and the
    statements that do not depend on rounding.  The distances of the
    similarity ranker are real numbers [R] (a square root is taken). *)

From Stdlib Require Import ZArith QArith Qround Qpower String Bool Lia.
From Stdlib Require Import List.
From Stdlib Require Import Permutation Sorted.
From Stdlib Require Import Reals Lra.
From Stdlib Require Lqa.
Import ListNotations.

Local Open Scope Z_scope.

(* ===================================================================== *)
(** * Python run-time model *)
(* ===================================================================== *)

Module Py.

(** Exceptions the modelled code can raise. [ConfigurationError] is the
    error class of the specification's taxonomy. *)
Inductive error : Type :=
| IndexError
| ValueError
| ZeroDivisionError
| NotFittedError
| ConfigurationError
| OverflowError.

(** A computation either returns a value or raises. *)
Inductive result (A : Type) : Type :=
| Ok (a : A)
| Raise (e : error).

Arguments Ok {A} a.
Arguments Raise {A} e.

Definition bind {A B : Type} (c : result A) (k : A -> result B) : result B :=
  match c with
  | Ok a => k a
  | Raise e => Raise e
  end.

(** [seq[k]] and numpy's [a[k]]: an index in [-len, len) is accepted, a
    negative one counts from the end, anything else is an [IndexError]. *)
Definition norm_index (len : nat) (k : Z) : option nat :=
  let n := Z.of_nat len in
  if (0 <=? k) && (k <? n) then Some (Z.to_nat k)
  else if (- n <=? k) && (k <? 0) then Some (Z.to_nat (n + k))
  else None.

Definition getitem {A : Type} (l : list A) (k : Z) : result A :=
  match norm_index (length l) k with
  | Some i =>
      match nth_error l i with
      | Some x => Ok x
      | None => Raise IndexError
      end
  | None => Raise IndexError
  end.

(** In-place update [l[k] = f(l[k])] of a nested array: position [i] of [l]
    is replaced by what [f] returns for it. *)
Fixpoint alter_nth {A : Type} (f : A -> result A) (i : nat) (l : list A)
  : result (list A) :=
  match l, i with
  | [], _ => Raise IndexError
  | x :: l', O => bind (f x) (fun y => Ok (y :: l'))
  | x :: l', S i' => bind (alter_nth f i' l') (fun r => Ok (x :: r))
  end.

Definition alter {A : Type} (f : A -> result A) (k : Z) (l : list A)
  : result (list A) :=
  match norm_index (length l) k with
  | Some i => alter_nth f i l
  | None => Raise IndexError
  end.

(** The slice [l[k:]].  [None] is Python's [None] (slice from the start); a
    negative start counts from the end and is clipped at 0; a start past the
    end gives the empty sequence.  Slicing never raises. *)
Definition slice_from {A : Type} (k : option Z) (l : list A) : list A :=
  match k with
  | None => l
  | Some z =>
      if 0 <=? z then skipn (Z.to_nat z) l
      else skipn (Z.to_nat (Z.max 0 (Z.of_nat (length l) + z))) l
  end.

(** [range(n)]. *)
Definition range (n : nat) : list Z := map Z.of_nat (seq 0 n).

(** [int(x)] on a finite float: truncation towards zero.  (The infinities
    and NaN, on which [int] raises, are in module [Doubles].) *)
Definition int (x : Q) : Z := Z.quot (Qnum x) (Zpos (Qden x)).

(** [list.sort(key=...)]: a stable ascending sort that compares keys with
    [<] only.  Stability fixes the result of every such sort, so the model is
    the insertion sort: an element is placed behind the elements whose key is
    strictly smaller and in front of all others. *)
Section Sort.
Context {A K : Type} (key : A -> K) (ltb : K -> K -> bool).

Fixpoint insert_by (x : A) (l : list A) : list A :=
  match l with
  | [] => [x]
  | y :: l' => if ltb (key y) (key x) then y :: insert_by x l' else x :: l
  end.

Definition sort_by (l : list A) : list A :=
  fold_right insert_by [] l.

(** What such a sort promises when [earlier x y] says that [x] stood before
    [y] in the list to be sorted: keys ascend, and of two elements neither
    of which has the smaller key the earlier one comes first. *)
Definition stable_order (earlier : A -> A -> Prop) (x y : A) : Prop :=
  ltb (key y) (key x) = false /\
  (ltb (key x) (key y) = false -> earlier x y).
End Sort.

(** numpy arrays of rank 1 and 2, as far as [np.vstack] tells them apart.
    A rank-2 array is the list of its rows. *)
Inductive ndarray : Type :=
| Arr1 (v : list Q)
| Arr2 (rows : list (list Q)).

(** [np.atleast_2d]. *)
Definition atleast_2d (a : ndarray) : list (list Q) :=
  match a with
  | Arr1 v => [v]
  | Arr2 rows => rows
  end.

Definition same_width (rows : list (list Q)) : bool :=
  match rows with
  | [] => true
  | r :: rs => forallb (fun r' => Nat.eqb (length r') (length r)) rs
  end.

(** [np.vstack((a, b))]: both arguments are made rank 2 and stacked; rows of
    different widths are a [ValueError]. *)
Definition vstack (a b : ndarray) : result ndarray :=
  let rows := atleast_2d a ++ atleast_2d b in
  if same_width rows then Ok (Arr2 rows) else Raise ValueError.

(** A [for] loop whose body may raise: the loop state is threaded through
    the elements in order and the first exception ends the loop. *)
Fixpoint for_each {A S : Type} (body : A -> S -> result S) (l : list A) (s : S)
  : result S :=
  match l with
  | [] => Ok s
  | x :: l' => bind (body x s) (for_each body l')
  end.

End Py.

Import Py.

Declare Scope py_scope.
Delimit Scope py_scope with py.
Notation "x <- c ;; k" := (Py.bind c (fun x => k))
  (at level 61, c at next level, right associativity) : py_scope.

(* ===================================================================== *)
(** * core/converters/RCNLPTagConverter.py *)
(* ===================================================================== *)

Module RCNLPTagConverter.

Local Open Scope string_scope.
Local Open Scope py_scope.

(** [get_tags]: the tag table, in source order. *)
Definition get_tags : list string :=
  [ "''"; ","; ":"; "."; "``"; "-LRB-"; "-RRB-"; "AFX"; "CC"; "CD"; "DT";
    "EX"; "FW"; "IN";
    "IN"; "JJ"; "JJR"; "JJS"; "LS"; "MD"; "NN"; "NNS"; "NNP"; "NNPS"; "PDT";
    "POS"; "PRP";
    "PRP$"; "RB"; "RBR"; "RBS"; "RP"; "SYM"; "TO"; "UH"; "VB"; "VBZ"; "VBP";
    "VBD"; "VBN";
    "VBG"; "WDT"; "WP"; "WP$"; "WRB" ].

(** [_get_inputs_size]. *)
Definition _get_inputs_size : nat := length get_tags.

(** A token of the tagger's output: its text and its tag ([word.tag_]). *)
Record token : Type := Token { text_ : string; tag_ : string }.

(** [word not in word_exclude] compares token objects, and what that
    comparison answers is spaCy's business: its tokens belong to a document,
    and the document of [__call__] is made inside the call.  The comparison
    below (same text and same tag) stands in for it; with the default
    [word_exclude=[]] it is never run, and the properties of the converter
    are stated for that default only. *)
Definition token_eqb (a b : token) : bool :=
  String.eqb (text_ a) (text_ b) && String.eqb (tag_ a) (tag_ b).

Definition in_strings (s : string) (l : list string) : bool :=
  existsb (String.eqb s) l.

Definition in_tokens (w : token) (l : list token) : bool :=
  existsb (token_eqb w) l.

(** The loop body of [__call__] for the token at position [index]. *)
Definition call_step
  (tag_to_symbol : string -> option (list Q))
  (exclude : list string) (word_exclude : list token)
  (index : nat) (word : token) (doc_array : ndarray) : result ndarray :=
  if negb (in_strings (tag_ word) exclude) && negb (in_tokens word word_exclude)
  then
    match tag_to_symbol (tag_ word) with
    | Some sym =>
        if Nat.eqb index 0 then Ok (Arr1 sym)
        else vstack doc_array (Arr1 sym)
    | None => Ok doc_array
    end
  else Ok doc_array.

(** [for index, word in enumerate(doc)], from position [index] on. *)
Fixpoint call_loop
  (tag_to_symbol : string -> option (list Q))
  (exclude : list string) (word_exclude : list token)
  (index : nat) (doc : list token) (doc_array : ndarray) : result ndarray :=
  match doc with
  | [] => Ok doc_array
  | word :: doc' =>
      a <- call_step tag_to_symbol exclude word_exclude index word doc_array ;;
      call_loop tag_to_symbol exclude word_exclude (S index) doc' a
  end.

(** [__call__].  The tagger [nlp] (spaCy), the symbol table [tag_to_symbol]
    and the final [reduce] belong to the base class and to external
    libraries; they are parameters. *)
Definition __call__
  (nlp : string -> list token)
  (tag_to_symbol : string -> option (list Q))
  (reduce : ndarray -> result ndarray)
  (text : string) (exclude : list string) (word_exclude : list token)
  : result ndarray :=
  let doc := nlp text in
  let doc_array := Arr1 [] in
  a <- call_loop tag_to_symbol exclude word_exclude 0 doc doc_array ;;
  reduce a.

(** The tokens [__call__] retains: tag not excluded, word not excluded, and
    the tag has a symbol. *)
Definition retained
  (tag_to_symbol : string -> option (list Q))
  (exclude : list string) (word_exclude : list token) (word : token) : bool :=
  negb (in_strings (tag_ word) exclude) && negb (in_tokens word word_exclude)
  && match tag_to_symbol (tag_ word) with Some _ => true | None => false end.

(** The symbols of the retained tokens of [doc], in document order: the
    rows the converter is meant to produce. *)
Definition retained_symbols
  (tag_to_symbol : string -> option (list Q))
  (exclude : list string) (word_exclude : list token) (doc : list token)
  : list (list Q) :=
  flat_map (fun w => if retained tag_to_symbol exclude word_exclude w then
                       match tag_to_symbol (tag_ w) with
                       | Some sym => [sym]
                       | None => []
                       end
                     else []) doc.

(** Modelled from the spec: the base class [RCNLPConverter] (its
    [tag_to_symbol] and symbol table) is not among the sources.  The spec
    describes the symbols as a one-hot tag code of the converter's input
    width: the symbol of a tag of the table has a single 1 at a position
    where the table holds that tag, and a tag outside the table has no
    symbol. *)
Fixpoint index_of (s : string) (l : list string) : option nat :=
  match l with
  | [] => None
  | t :: l' =>
      match index_of s l' with
      | Some i => Some (S i)
      | None => if String.eqb s t then Some O else None
      end
  end.

Definition one_hot (width i : nat) : list Q :=
  map (fun j => if Nat.eqb j i then 1%Q else 0%Q) (seq 0 width).

Definition tag_to_symbol (tag : string) : option (list Q) :=
  match index_of tag get_tags with
  | Some i => Some (one_hot _get_inputs_size i)
  | None => None
  end.

(** A tagger that answers every text with the same three tokens, used to
    run the converter. *)
Definition example_doc : list token :=
  [ Token "dogs" "NNS"; Token "," ","; Token "bark" "VBP" ].

Definition example_nlp (text : string) : list token := example_doc.

End RCNLPTagConverter.

(* ===================================================================== *)
(** * author_clustering.py *)
(* ===================================================================== *)

Module AuthorClustering.

Local Open Scope py_scope.

Definition ex_name : string := "Author clustering Experience".
Definition ex_instance : string := "Author clustering, PCA".

(** Reservoir properties (module-level settings). *)
Definition rc_leak_rate : Q := 5 # 100.
Definition rc_input_scaling : Q := 5 # 10.
Definition rc_size : Z := 100.
Definition rc_spectral_radius : Q := 9 # 10.
Definition rc_word_sparsity : Q := 5 # 10.

(** A rank-2 float array, as the list of its rows (one row per time step
    or per point). *)
Definition matrix : Type := list (list Q).

(** The reservoir node, as far as its constructor arguments describe it;
    its random weights never appear in the scripts. *)
Record reservoir_node : Type := ReservoirNode {
  input_dim : Z;
  output_dim : Z;
  input_scaling : Q;
  leak_rate : Q;
  spectral_radius : Q;
  word_sparsity : Q
}.

(** Modelled from the spec: the class [core.nodes.RCNLPWordReservoirNode] is
    not among the sources.  The spec requires its constructor to take
    {input_dim, output_dim, input_scaling, leak_rate, spectral_radius,
    sparsity} and to reject [spectral_radius <= 0] as a configuration
    error. *)
Definition RCNLPWordReservoirNode
  (input_dim output_dim : Z)
  (input_scaling leak_rate spectral_radius word_sparsity : Q)
  : result reservoir_node :=
  if Qle_bool spectral_radius 0 then Raise ConfigurationError
  else Ok (ReservoirNode input_dim output_dim input_scaling leak_rate
             spectral_radius word_sparsity).

(** [mdp.Flow([reservoir], verbose=1)]. *)
Inductive flow : Type := Flow (nodes : list reservoir_node).

(** [create_reservoir]. *)
Definition create_reservoir
  (n_symbols : Z) (word_sparsity : Q) (size : Z)
  (input_scaling leak_rate spectral_radius : Q) : result flow :=
  reservoir <- RCNLPWordReservoirNode n_symbols size input_scaling leak_rate
                 spectral_radius word_sparsity ;;
  let r_flow := Flow [reservoir] in
  Ok r_flow.

(** ** External collaborators

    What the script calls but does not define: the file system, the
    part-of-speech converter, the execution of a flow (mdp/Oger) and the
    linear reducer (scikit-learn's PCA, [fit] then [transform]).  Their
    failures propagate unchanged. *)
Class Collaborators : Type := {
  pca_model : Type;
  read_file : string -> result string;
  pos_converter : string -> result matrix;
  run_flow : flow -> matrix -> result matrix;
  pca_fit : option Z -> matrix -> result pca_model;
  pca_transform : pca_model -> matrix -> result matrix
}.

(** ** Effects

    The script prints, hands plots to the logger and drives the reducer;
    these calls are recorded, oldest first. *)
Inductive event : Type :=
| Printed (label : string) (rows : nat)
| PlotSaved (sub_title : string)
| PcaFit (data : matrix)
| PcaTransform (data : matrix).

Definition world : Type := list event.

(** State (the record of effects) and exceptions. *)
Definition M (A : Type) : Type := world -> result (A * world).

Definition ret {A : Type} (a : A) : M A := fun w => Ok (a, w).

Definition mbind {A B : Type} (c : M A) (k : A -> M B) : M B :=
  fun w => match c w with
           | Ok (a, w') => k a w'
           | Raise e => Raise e
           end.

Definition lift {A : Type} (c : result A) : M A :=
  fun w => match c with
           | Ok a => Ok (a, w)
           | Raise e => Raise e
           end.

Definition emit (e : event) : M unit := fun w => Ok (tt, w ++ [e]).

Declare Scope io_scope.
Delimit Scope io_scope with io.
Notation "x <- c ;; k" := (mbind c (fun x => k))
  (at level 61, c at next level, right associativity) : io_scope.
Notation "c ;;; k" := (mbind c (fun _ => k))
  (at level 61, right associativity) : io_scope.

Section Script.
Context {C : Collaborators}.

(** [generate_reservoir_states].  [remove_startup] is [None] when the
    command line gives no [--startup]. *)
Definition generate_reservoir_states
  (the_flow : flow) (filename : string) (remove_startup : option Z) : M matrix :=
  (text <- lift (read_file filename) ;;
   doc_array <- lift (pos_converter text) ;;
   emit (Printed "Dimensions of the TVR : " (length doc_array)) ;;;
   emit (PlotSaved (ex_instance ++ ", TVR")) ;;;
   all_states <- lift (run_flow the_flow doc_array) ;;
   let states := slice_from remove_startup all_states in
   emit (Printed "Dimensions of the resulting reservoir states : "
           (length states)) ;;;
   emit (PlotSaved (ex_instance ++ ", Reservoir states")) ;;;
   ret states)%io.

End Script.

(** ** The PCA image *)

(** In this module the floats are exact rationals.  What depends on how a
    double is rounded (the pixel index of a given coordinate, the value of
    a cell) is stated on module [AuthorClusteringDoubles] instead. *)

(** A rank-3 float array: [image[x][y][channel]]. *)
Definition image : Type := list (list (list Q)).

(** [np.zeros((a, b, c))]. *)
Definition zeros (a b c : nat) : image :=
  repeat (repeat (repeat 0%Q c) b) a.

(** The pixel index of a coordinate: [int((v+1)*128)]. *)
Definition pixel_index (v : Q) : Z := int ((v + 1) * 128).

(** [image[x, y, channel] += n_ratio]. *)
Definition image_add (x y channel : Z) (n_ratio : Q) (img : image)
  : result image :=
  alter (alter (alter (fun p => Ok (p + n_ratio)%Q) channel) y) x img.

(** The body of both loops of [generate_pca_image]. *)
Definition accumulate (channel : Z) (n_ratio : Q) (index1 index2 : Z)
  (s : list Q) (img : image) : result image :=
  v1 <- getitem s index1 ;;
  v2 <- getitem s index2 ;;
  image_add (pixel_index v1) (pixel_index v2) channel n_ratio img.

(** [generate_pca_image].  [256.0 / n_samples] raises when there is no
    point at all. *)
Definition generate_pca_image (states1 states2 : matrix) (index1 index2 : Z)
  : result image :=
  let n_samples := (length states1 + length states2)%nat in
  if Nat.eqb n_samples 0 then Raise ZeroDivisionError
  else
    let n_ratio := (256 / inject_Z (Z.of_nat n_samples))%Q in
    let img := zeros 256 256 3 in
    img1 <- for_each (accumulate 1 n_ratio index1 index2) states1 img ;;
    img2 <- for_each (accumulate 2 n_ratio index1 index2) states2 img1 ;;
    Ok img2.

(** Reading a pixel, and the total intensity of an image. *)
Definition pixel (img : image) (x y c : nat) : Q :=
  nth c (nth y (nth x img []) []) 0%Q.

Definition sumQ (l : list Q) : Q := fold_right Qplus 0%Q l.

Definition image_sum (img : image) : Q :=
  sumQ (map (fun plane => sumQ (map sumQ plane)) img).

(** The image keeps the shape it is created with. *)
Definition has_shape (a b c : nat) (img : image) : Prop :=
  length img = a /\
  Forall (fun plane => length plane = b /\
                       Forall (fun px : list Q => length px = c) plane) img.

(** The pixel a point is accumulated at, when its two coordinates exist and
    both pixel indices are indices of the 256 x 256 image. *)
Definition target (index1 index2 : Z) (s : list Q) : option (nat * nat) :=
  match getitem s index1, getitem s index2 with
  | Ok v1, Ok v2 =>
      match norm_index 256 (pixel_index v1), norm_index 256 (pixel_index v2) with
      | Some x, Some y => Some (x, y)
      | _, _ => None
      end
  | _, _ => None
  end.

Definition lands_on (index1 index2 : Z) (x y : nat) (s : list Q) : bool :=
  match target index1 index2 s with
  | Some (x', y') => Nat.eqb x' x && Nat.eqb y' y
  | None => false
  end.

(** How many points of a set are accumulated at pixel [(x, y)]. *)
Definition hits (index1 index2 : Z) (x y : nat) (points : matrix) : nat :=
  length (filter (lands_on index1 index2 x y) points).

(** The point set drawn in a channel: channel 1 holds the first set,
    channel 2 the second, channel 0 stays empty. *)
Definition drawn_in (channel : nat) (states1 states2 : matrix) : matrix :=
  match channel with
  | 1%nat => states1
  | 2%nat => states2
  | _ => []
  end.

(** Two small point sets, used to run the image generation. *)
Definition example_states1 : matrix := [[0; 0]; [1 # 2; - (1 # 2)]]%Q.
Definition example_states2 : matrix := [[- (1); 3 # 4]]%Q.

(** ** The main block *)

Record arguments : Type := Arguments_ {
  author1 : string;
  author2 : string;
  startup : option Z;
  ncomponents : option Z;
  nfile : option Z;
  lang : string
}.

Section Main.
Context {C : Collaborators}.

(** [sklearn.decomposition.PCA]: the object holds its configuration and,
    once fitted, the fitted model. *)
Record PCA : Type := PCA_ {
  n_components : option Z;
  fitted : option pca_model
}.

(** [pca.fit(X)] replaces whatever was fitted before. *)
Definition PCA_fit (pca : PCA) (X : matrix) : M PCA :=
  (emit (PcaFit X) ;;;
   model <- lift (pca_fit (n_components pca) X) ;;
   ret (PCA_ (n_components pca) (Some model)))%io.

(** [pca.transform(X)] uses the fitted model and leaves the object as it
    is. *)
Definition PCA_transform (pca : PCA) (X : matrix) : M matrix :=
  (emit (PcaTransform X) ;;;
   match fitted pca with
   | Some model => lift (pca_transform model X)
   | None => lift (Raise NotFittedError)
   end)%io.

(** The [__main__] block, after argument parsing. *)
Definition main (args : arguments) : M image :=
  (flow <- lift (create_reservoir 14 rc_word_sparsity rc_size rc_input_scaling
                   rc_leak_rate rc_spectral_radius) ;;
   state1 <- generate_reservoir_states flow (author1 args) (startup args) ;;
   state2 <- generate_reservoir_states flow (author2 args) (startup args) ;;
   joined <- lift (vstack (Arr2 state1) (Arr2 state2)) ;;
   let join_states := atleast_2d joined in
   emit (PlotSaved (ex_instance ++ ", Joined Reservoir states")) ;;;
   emit (Printed "Dimensions of joined states : " (length join_states)) ;;;
   let pca := PCA_ (ncomponents args) None in
   pca <- PCA_fit pca join_states ;;
   t1 <- PCA_transform pca state1 ;;
   t2 <- PCA_transform pca state2 ;;
   img <- lift (generate_pca_image t1 t2 0 1) ;;
   emit (PlotSaved (ex_instance ++ ", PCA")) ;;;
   ret img)%io.

(** The reducer calls among the recorded effects. *)
Definition is_pca_event (e : event) : bool :=
  match e with
  | PcaFit _ | PcaTransform _ => true
  | _ => false
  end.

Definition pca_events (w : world) : list event := filter is_pca_event w.

End Main.

(** Collaborators for running the script on data held in memory: a file's
    content is its name, the converter and the flow are given as functions,
    and the reducer keeps the first [n_components] coordinates of each row
    (all of them when [n_components] is [None]). *)
Definition in_memory (convert : string -> matrix) (run : matrix -> matrix)
  : Collaborators := {|
  pca_model := option Z;
  read_file := fun filename => Ok filename;
  pos_converter := fun text => Ok (convert text);
  run_flow := fun _ doc_array => Ok (run doc_array);
  pca_fit := fun n _ => Ok n;
  pca_transform := fun n X =>
    Ok (match n with
        | Some k => map (firstn (Z.to_nat k)) X
        | None => X
        end)
|}.

(** A run on the two example point sets, kept in memory under the file
    names [author1] and [author2]. *)
Definition example_collaborators : Collaborators :=
  in_memory
    (fun text => if String.eqb text "author1" then example_states1
                 else example_states2)
    (fun doc_array => doc_array).

Definition example_args : arguments :=
  Arguments_ "author1" "author2" (Some 0) (Some 2) None "en".

Definition example_image : image :=
  match generate_pca_image example_states1 example_states2 0 1 with
  | Ok img => img
  | Raise _ => []
  end.

End AuthorClustering.

(* ===================================================================== *)
(** * author_clustering_document_embeddings.py *)
(* ===================================================================== *)

Module DocumentEmbeddings.

Local Open Scope py_scope.

Section Ranker.
(** Embedding vectors [vec], distances [D], scipy's [euclidean] and the
    comparison [<] of distances. *)
Context {vec D : Type} (euclidean : vec -> vec -> D) (ltb : D -> D -> bool).

(** The matrix of document embeddings, one column per document, as the list
    of its columns: [shape[1]] is its length and [document_embeddings[:, k]]
    its [k]-th element, with numpy's index rules. *)
Definition embeddings : Type := list vec.

Definition column (document_embeddings : embeddings) (k : Z) : result vec :=
  getitem document_embeddings k.

(** The body of the loop over [n]. *)
Definition similarity_step (document_index : Z) (document_embeddings : embeddings)
  (n : Z) (similarities : list (Z * D)) : result (list (Z * D)) :=
  if negb (n =? document_index) then
    u <- column document_embeddings document_index ;;
    v <- column document_embeddings n ;;
    let distance := euclidean u v in
    Ok (similarities ++ [(n, distance)])
  else Ok similarities.

(** [get_similar_documents]. *)
Definition get_similar_documents (document_index : Z)
  (document_embeddings : embeddings) : result (list (Z * D)) :=
  similarities <- for_each (similarity_step document_index document_embeddings)
                    (range (length document_embeddings)) [] ;;
  Ok (sort_by snd ltb similarities).

(** The column indices other than [document_index], in loop order. *)
Definition others (document_index : Z) (document_embeddings : embeddings)
  : list Z :=
  filter (fun n => negb (n =? document_index))
    (range (length document_embeddings)).

(** The pairs [(n, distance from u to column n)] for the indices [ns]. *)
Definition distances_from (u : vec) (document_embeddings : embeddings)
  (ns : list Z) : list (Z * D) :=
  map (fun n => (n, euclidean u (nth (Z.to_nat n) document_embeddings u))) ns.

End Ranker.

(** Real vectors: [scipy.spatial.distance.euclidean(u, v)] is the norm of
    [u - v]. *)
Definition sum_sq_diff (u v : list R) : R :=
  fold_right Rplus 0%R (map (fun p => ((fst p - snd p) * (fst p - snd p))%R)
                          (combine u v)).

Definition euclidean (u v : list R) : R := sqrt (sum_sq_diff u v).

Definition Rltb (x y : R) : bool := if Rlt_dec x y then true else false.

(** The order of a ranking: distances ascend, and of two documents at the
    same distance the one with the smaller index comes first. *)
Definition ranked (p q : Z * R) : Prop :=
  (snd p <= snd q)%R /\ (snd p = snd q -> fst p < fst q).

(** The three-document matrix with columns A = (0,0), B = (1,0),
    C = (3,4). *)
Definition example_embeddings : list (list R) :=
  [[0; 0]; [1; 0]; [3; 4]]%R.

End DocumentEmbeddings.

(* ===================================================================== *)
(** * IEEE 754 binary64 *)
(* ===================================================================== *)

Module Doubles.

(** A double is a rational number, an infinity or a NaN.  The sign of a
    zero is not kept: nothing in the scripts depends on it. *)
Inductive double : Type :=
| Finite (q : Q)
| Infinite (negative : bool)
| NaN.

Definition pow2 (e : Z) : Q := (2 ^ e)%Q.

(** [binade x], for [x > 0]: the exponent [e] with [2^e <= x < 2^(e+1)]. *)
Definition binade (x : Q) : Z :=
  let e0 := Z.log2 (Qnum x) - Z.log2 (Zpos (Qden x)) in
  if Qle_bool (pow2 e0) x then e0 else e0 - 1.

(** Rounding to the nearest integer, ties to the even one. *)
Definition round_half_even (x : Q) : Z :=
  let f := Qfloor x in
  match Qcompare (x - inject_Z f) (1 # 2) with
  | Lt => f
  | Gt => f + 1
  | Eq => if Z.even f then f else f + 1
  end.

(** The spacing of the doubles around [x > 0] is [2^s]: 53 significant
    bits, and never finer than [2^-1074] (subnormal numbers). *)
Definition spacing (x : Q) : Z := Z.max (binade x - 52) (-1074).

Definition round_pos (x : Q) : Q :=
  inject_Z (round_half_even (x / pow2 (spacing x))) * pow2 (spacing x).

(** [round64 x]: the double nearest to [x], ties to even; a result of
    magnitude [2^1024] or more is an infinity. *)
Definition round64 (x : Q) : double :=
  match Qcompare x 0 with
  | Eq => Finite 0
  | Gt => let r := round_pos x in
          if Qle_bool (pow2 1024) r then Infinite false else Finite (Qred r)
  | Lt => let r := round_pos (- x) in
          if Qle_bool (pow2 1024) r then Infinite true else Finite (Qred (- r))
  end.

Definition Qneg (x : Q) : bool := Qnum x <? 0.

(** [a + b]. *)
Definition fadd (a b : double) : double :=
  match a, b with
  | NaN, _ | _, NaN => NaN
  | Infinite s, Infinite t => if Bool.eqb s t then Infinite s else NaN
  | Infinite s, Finite _ | Finite _, Infinite s => Infinite s
  | Finite x, Finite y => round64 (x + y)
  end.

(** [a * b]. *)
Definition fmul (a b : double) : double :=
  match a, b with
  | NaN, _ | _, NaN => NaN
  | Infinite s, Infinite t => Infinite (xorb s t)
  | Infinite s, Finite y | Finite y, Infinite s =>
      if Qeq_bool y 0 then NaN else Infinite (xorb s (Qneg y))
  | Finite x, Finite y => round64 (x * y)
  end.

(** [float(n)] for a Python integer: exact below [2^53], rounded above, and
    an [OverflowError] when the integer is too large for a double. *)
Definition float_of_int (n : Z) : result double :=
  if Z.abs n <? 2 ^ 53 then Ok (Finite (inject_Z n))
  else match round64 (inject_Z n) with
       | Infinite _ => Raise OverflowError
       | d => Ok d
       end.

(** [a / n] for a Python float [a] and a Python integer [n]. *)
Definition div_int (a : double) (n : Z) : result double :=
  if n =? 0 then Raise ZeroDivisionError
  else
    bind (float_of_int n) (fun d =>
    match a, d with
    | NaN, _ | _, NaN => Ok NaN
    | Infinite s, Infinite t => Ok NaN
    | Infinite s, Finite y => Ok (Infinite (xorb s (Qneg y)))
    | Finite _, Infinite _ => Ok (Finite 0)
    | Finite x, Finite y => Ok (round64 (x / y))
    end).

(** [int(x)]: truncation towards zero; an infinity is an [OverflowError], a
    NaN a [ValueError]. *)
Definition int (x : double) : result Z :=
  match x with
  | Finite q => Ok (Py.int q)
  | Infinite _ => Raise OverflowError
  | NaN => Raise ValueError
  end.

(** The rational a finite double stands for (0 for the others). *)
Definition value (x : double) : Q :=
  match x with
  | Finite q => q
  | _ => 0%Q
  end.

End Doubles.

(* ===================================================================== *)
(** * author_clustering.py: the image generation in doubles *)
(* ===================================================================== *)

Module AuthorClusteringDoubles.

Import Doubles.
Local Open Scope py_scope.

(** A rank-2 array of doubles, as the list of its rows. *)
Definition matrix : Type := list (list double).

(** A rank-3 array of doubles: [image[x][y][channel]]. *)
Definition image : Type := list (list (list double)).

(** [np.zeros((a, b, c))]. *)
Definition zeros (a b c : nat) : image :=
  repeat (repeat (repeat (Finite 0) c) b) a.

(** The pixel index of a coordinate: [int((v+1)*128)]. *)
Definition pixel_index (v : double) : result Z :=
  int (fmul (fadd v (Finite 1)) (Finite 128)).

(** [image[x, y, channel] += n_ratio]. *)
Definition image_add (x y channel : Z) (n_ratio : double) (img : image)
  : result image :=
  alter (alter (alter (fun p => Ok (fadd p n_ratio)) channel) y) x img.

(** The body of both loops of [generate_pca_image]: the two coordinates are
    read, the two indices computed, then the cell is updated. *)
Definition accumulate (channel : Z) (n_ratio : double) (index1 index2 : Z)
  (s : list double) (img : image) : result image :=
  v1 <- getitem s index1 ;;
  v2 <- getitem s index2 ;;
  x <- pixel_index v1 ;;
  y <- pixel_index v2 ;;
  image_add x y channel n_ratio img.

(** [generate_pca_image]. *)
Definition generate_pca_image (states1 states2 : matrix) (index1 index2 : Z)
  : result image :=
  let n_samples := (length states1 + length states2)%nat in
  n_ratio <- div_int (Finite 256) (Z.of_nat n_samples) ;;
  let img := zeros 256 256 3 in
  img1 <- for_each (accumulate 1 n_ratio index1 index2) states1 img ;;
  img2 <- for_each (accumulate 2 n_ratio index1 index2) states2 img1 ;;
  Ok img2.

(** Reading a cell. *)
Definition pixel (img : image) (x y c : nat) : double :=
  nth c (nth y (nth x img []) []) (Finite 0).

(** The sum of all cells, as an exact rational. *)
Definition image_total (img : image) : Q :=
  AuthorClustering.sumQ
    (map (fun plane =>
            AuthorClustering.sumQ
              (map (fun px => AuthorClustering.sumQ (map value px)) plane)) img).

Definition has_shape (a b c : nat) (img : image) : Prop :=
  length img = a /\
  Forall (fun plane => length plane = b /\
                       Forall (fun px : list double => length px = c) plane) img.

(** The cell a point is accumulated at, when its two coordinates exist,
    both pixel indices are computed and both are indices of the image. *)
Definition target (index1 index2 : Z) (s : list double) : option (nat * nat) :=
  match getitem s index1, getitem s index2 with
  | Ok v1, Ok v2 =>
      match pixel_index v1, pixel_index v2 with
      | Ok x, Ok y =>
          match norm_index 256 x, norm_index 256 y with
          | Some xi, Some yi => Some (xi, yi)
          | _, _ => None
          end
      | _, _ => None
      end
  | _, _ => None
  end.

Definition lands_on (index1 index2 : Z) (x y : nat) (s : list double) : bool :=
  match target index1 index2 s with
  | Some (x', y') => Nat.eqb x' x && Nat.eqb y' y
  | None => false
  end.

(** How many points of a set are accumulated at cell [(x, y)]. *)
Definition hits (index1 index2 : Z) (x y : nat) (points : matrix) : nat :=
  length (filter (lands_on index1 index2 x y) points).

Definition drawn_in (channel : nat) (states1 states2 : matrix) : matrix :=
  match channel with
  | 1%nat => states1
  | 2%nat => states2
  | _ => []
  end.

(** [add_times n r a]: the cell [a] after [n] executions of [+= r]. *)
Fixpoint add_times (n : nat) (r a : double) : double :=
  match n with
  | O => a
  | S n' => add_times n' r (fadd a r)
  end.

(** Every cell of channel [c] holds a multiple [j * 2^e] with
    [0 <= j <= J]. *)
Definition on_grid (e J : Z) (c : nat) (img : image) : Prop :=
  forall x y : nat,
    exists (a : Q) (j : Z),
      pixel img x y c = Finite a /\ (a == inject_Z j * pow2 e)%Q /\ 0 <= j <= J.

(** The two doubles next below 1: [just_below_one] is the largest double
    smaller than 1, [below_one] the one before it. *)
Definition below_one : Q := 1 - pow2 (-52).
Definition just_below_one : Q := 1 - pow2 (-53).

(** A double in the closed range [[lo, hi]]. *)
Definition within (lo hi : Q) (v : double) : bool :=
  match v with
  | Finite q => Qle_bool lo q && Qle_bool q hi
  | _ => false
  end.

(** A point whose two used coordinates exist and lie in
    [[-1, below_one]]. *)
Definition in_range (index1 index2 : Z) (s : list double) : bool :=
  match getitem s index1, getitem s index2 with
  | Ok v1, Ok v2 => within (- (1)) below_one v1 && within (- (1)) below_one v2
  | _, _ => false
  end.

(** Two small point sets with coordinates in [[-1, below_one]]. *)
Definition example_points1 : matrix :=
  [[Finite 0; Finite 0]; [Finite (1 # 2); Finite (- (1 # 2))]].
Definition example_points2 : matrix := [[Finite (- (1)); Finite below_one]].

(** Point sets used to run the image generation: six points and one point,
    all at the origin, and the image drawn from them. *)
Definition six_points : matrix := repeat [Finite 0; Finite 0] 6.
Definition one_point : matrix := [[Finite 0; Finite 0]].

Definition seven_points_image : image :=
  match generate_pca_image six_points one_point 0 1 with
  | Ok img => img
  | Raise _ => []
  end.

End AuthorClusteringDoubles.

(* ===================================================================== *)
(** * Properties of the tag converter *)
(* ===================================================================== *)

Section TagConverterFacts.
Import RCNLPTagConverter.
Local Open Scope string_scope.
Local Open Scope py_scope.

Variable symbol_of : string -> option (list Q).
Variable exclude : list string.

(** Throughout, [word_exclude] is the default: the empty list. *)

Let keeps := retained symbol_of exclude [].
Let step := call_step symbol_of exclude [].
Let loop := call_loop symbol_of exclude [].

Let retained_symbols := retained_symbols symbol_of exclude [].

Lemma retained_symbols_cons (w : token) (doc : list token) :
  retained_symbols (w :: doc) =
  ((if keeps w then
      match symbol_of (tag_ w) with Some sym => [sym] | None => [] end
    else []) ++ retained_symbols doc)%list.
Proof. reflexivity. Qed.

Lemma step_not_retained (index : nat) (w : token) (a : ndarray) :
  keeps w = false -> step index w a = Ok a.
Proof.
  unfold keeps, retained, step, call_step. intros Hk.
  destruct (negb (in_strings (tag_ w) exclude) && negb (in_tokens w []));
    [ | reflexivity ].
  destruct (symbol_of (tag_ w)); [ discriminate Hk | reflexivity ].
Qed.

Lemma step_retained_later (index : nat) (w : token) (a : ndarray) :
  keeps w = true ->
  exists sym, symbol_of (tag_ w) = Some sym /\
              step (S index) w a = vstack a (Arr1 sym).
Proof.
  unfold keeps, retained, step, call_step. intros Hk.
  destruct (negb (in_strings (tag_ w) exclude) && negb (in_tokens w []));
    [ | discriminate Hk ].
  destruct (symbol_of (tag_ w)) as [sym | ]; [ | discriminate Hk ].
  exists sym. split; reflexivity.
Qed.

Lemma loop_cons (index : nat) (w : token) (doc : list token) (a : ndarray) :
  loop index (w :: doc) a = Py.bind (step index w a) (loop (S index) doc).
Proof. reflexivity. Qed.

(** Past position 0 the loop leaves the empty start array alone until the
    first retained token, and there [np.vstack] refuses the two widths. *)
Lemma loop_empty_start_raises (doc : list token) (index : nat) :
  (exists w, In w doc /\ keeps w = true /\
             forall sym, symbol_of (tag_ w) = Some sym -> sym <> []) ->
  (forall w sym, In w doc -> symbol_of (tag_ w) = Some sym -> sym <> []) ->
  loop (S index) doc (Arr1 []) = Raise ValueError.
Proof.
  revert index. induction doc as [ | w0 doc IH]; intros index [w [Hin [Hk Hne]]] Hall.
  - destruct Hin.
  - rewrite loop_cons. destruct (keeps w0) eqn:Hk0.
    + destruct (step_retained_later index w0 (Arr1 []) Hk0) as [sym [Hs Heq]].
      rewrite Heq.
      assert (Hsym : sym <> []) by (apply (Hall w0); [ left; reflexivity | exact Hs ]).
      unfold vstack. simpl. destruct sym as [ | q sym]; [ contradiction | reflexivity ].
    + rewrite (step_not_retained (S index) w0 _ Hk0). simpl.
      destruct Hin as [-> | Hin]; [ congruence | ].
      apply IH.
      * exists w. auto.
      * intros w' sym' Hin' Hs'. apply (Hall w' sym'); [ right; exact Hin' | exact Hs' ].
Qed.

(** Once a first row of width [width] is in place, every retained token
    adds its symbol as one more row. *)
Lemma loop_stacks_rows (width : nat) (doc : list token) :
  (forall tag sym, symbol_of tag = Some sym -> length sym = width) ->
  forall (index : nat) (a : ndarray),
    atleast_2d a <> [] ->
    Forall (fun r => length r = width) (atleast_2d a) ->
    exists a',
      loop (S index) doc a = Ok a' /\
      atleast_2d a' = (atleast_2d a ++ retained_symbols doc)%list.
Proof.
  intros Hw. induction doc as [ | w doc IH]; intros index a Hne Hrows.
  - exists a. split; [ reflexivity | ]. simpl. now rewrite app_nil_r.
  - rewrite loop_cons. destruct (keeps w) eqn:Hk.
    + destruct (step_retained_later index w a Hk) as [sym [Hs Heq]].
      rewrite Heq. unfold vstack.
      assert (Hsame : same_width (atleast_2d a ++ atleast_2d (Arr1 sym)) = true).
      { destruct (atleast_2d a) as [ | r rs]; [ contradiction | ].
        simpl. rewrite forallb_app. simpl.
        inversion Hrows as [ | r' rs' Hr Hrs].
        rewrite (Hw _ _ Hs), Hr, Nat.eqb_refl, andb_true_r.
        apply forallb_forall. intros x Hx.
        rewrite Forall_forall in Hrs. rewrite (Hrs x Hx). apply Nat.eqb_refl. }
      rewrite Hsame. cbn [Py.bind atleast_2d].
      destruct (IH (S index) (Arr2 (atleast_2d a ++ [sym]))) as [a' [Hl Ha']].
      * simpl. intro E. apply app_eq_nil in E. destruct E; discriminate.
      * simpl. apply Forall_app. split; [ exact Hrows | ].
        constructor; [ exact (Hw _ _ Hs) | constructor ].
      * exists a'. split; [ exact Hl | ].
        rewrite Ha', (retained_symbols_cons w doc), Hk, Hs. simpl.
        now rewrite <- app_assoc.
    + rewrite (step_not_retained (S index) w a Hk). cbn [Py.bind].
      destruct (IH (S index) a Hne Hrows) as [a' [Hl Ha']].
      exists a'. split; [ exact Hl | ].
      rewrite Ha', (retained_symbols_cons w doc), Hk. reflexivity.
Qed.

End TagConverterFacts.

Section TagConverterCall.
Import RCNLPTagConverter.
Local Open Scope string_scope.

Variable nlp : string -> list token.
Variable symbol_of : string -> option (list Q).
Variable reduce : ndarray -> result ndarray.
Variable exclude : list string.

(** Property X1.  With the default [word_exclude=[]]: when the first token
    of the document is retained, the array handed to [reduce] holds one row
    per retained token, in document order. *)
Lemma call_rows_first_retained (text : string) (w0 : token) (rest : list token)
  (width : nat) :
  nlp text = w0 :: rest ->
  retained symbol_of exclude [] w0 = true ->
  (forall tag sym, symbol_of tag = Some sym -> length sym = width) ->
  exists a,
    __call__ nlp symbol_of reduce text exclude [] = reduce a /\
    atleast_2d a = retained_symbols symbol_of exclude [] (nlp text).
Proof.
  intros Hdoc Hk Hw. unfold __call__. rewrite Hdoc.
  rewrite (loop_cons symbol_of exclude).
  assert (Hstep : exists sym0, symbol_of (tag_ w0) = Some sym0 /\
            call_step symbol_of exclude [] 0 w0 (Arr1 []) = Ok (Arr1 sym0)).
  { unfold retained in Hk. unfold call_step.
    destruct (negb (in_strings (tag_ w0) exclude) && negb (in_tokens w0 []));
      [ | discriminate Hk ].
    destruct (symbol_of (tag_ w0)) as [sym0 | ]; [ | discriminate Hk ].
    exists sym0. split; reflexivity. }
  destruct Hstep as [sym0 [Hs0 Hstep]]. rewrite Hstep. cbn [Py.bind].
  destruct (loop_stacks_rows symbol_of exclude width rest Hw 0 (Arr1 sym0))
    as [a [Hl Ha]].
  - discriminate.
  - constructor; [ exact (Hw _ _ Hs0) | constructor ].
  - exists a. rewrite Hl. split; [ reflexivity | ].
    rewrite Ha. unfold retained_symbols. simpl. rewrite Hk, Hs0. reflexivity.
Qed.

(** Property X2.  With the default [word_exclude=[]]: when the first token
    is not retained but a later one is, the call raises [ValueError]: the
    loop tests the position in the document, not the number of rows gathered
    so far. *)
Lemma call_raises_first_dropped (text : string) (w0 : token) (rest : list token) :
  nlp text = w0 :: rest ->
  retained symbol_of exclude [] w0 = false ->
  (exists w, In w rest /\ retained symbol_of exclude [] w = true) ->
  (forall tag sym, symbol_of tag = Some sym -> sym <> []) ->
  __call__ nlp symbol_of reduce text exclude [] = Raise ValueError.
Proof.
  intros Hdoc Hk0 [w [Hin Hk]] Hne. unfold __call__. rewrite Hdoc.
  rewrite (loop_cons symbol_of exclude).
  rewrite (step_not_retained symbol_of exclude 0 w0 _ Hk0).
  cbn [Py.bind].
  rewrite (loop_empty_start_raises symbol_of exclude rest 0).
  - reflexivity.
  - exists w. split; [ exact Hin | ]. split; [ exact Hk | ].
    intros sym Hs. exact (Hne _ _ Hs).
  - intros w' sym _ Hs. exact (Hne _ _ Hs).
Qed.

End TagConverterCall.

(** Claim C8 (the converter yields one fixed-width vector per retained token,
    in document order).  The code misses it when the first token is dropped:
    for the two-token document [","; "dogs"] with the tag [","] excluded, one
    token is retained (its symbol is the one-hot vector of [NNS], position
    21 of 45), yet the call raises [ValueError] instead of returning that one
    vector. *)
Theorem call_first_token_excluded_raises :
  let doc := [RCNLPTagConverter.Token "," ","; RCNLPTagConverter.Token "dogs" "NNS"] in
  RCNLPTagConverter.retained_symbols RCNLPTagConverter.tag_to_symbol [","%string] [] doc
    = [RCNLPTagConverter.one_hot 45 21]
  /\ RCNLPTagConverter.__call__ (fun _ => doc) RCNLPTagConverter.tag_to_symbol
       (fun a => Ok a) ", dogs" [","%string] [] = Raise ValueError.
Proof. split; vm_compute; reflexivity. Qed.

(** Claim C10 ([get_tags] lists 45 tags with ["IN"] twice, at the consecutive
    positions 13 and 14; 44 tags are distinct, and [_get_inputs_size] is 45,
    one more than the number of distinct tags). *)
Theorem get_tags_IN_twice :
  length RCNLPTagConverter.get_tags = 45%nat
  /\ nth_error RCNLPTagConverter.get_tags 13 = Some "IN"%string
  /\ nth_error RCNLPTagConverter.get_tags 14 = Some "IN"%string
  /\ count_occ string_dec RCNLPTagConverter.get_tags "IN"%string = 2%nat
  /\ length (nodup string_dec RCNLPTagConverter.get_tags) = 44%nat
  /\ RCNLPTagConverter._get_inputs_size = 45%nat
  /\ RCNLPTagConverter._get_inputs_size
     = S (length (nodup string_dec RCNLPTagConverter.get_tags)).
Proof. repeat split; vm_compute; reflexivity. Qed.

(* ===================================================================== *)
(** * Facts about the Python run-time model *)
(* ===================================================================== *)

Section PyFacts.

Lemma norm_index_nonneg (len : nat) (k : Z) :
  0 <= k < Z.of_nat len -> norm_index len k = Some (Z.to_nat k).
Proof.
  intros [H0 H1]. unfold norm_index.
  destruct (Z.leb_spec 0 k); [ | lia ].
  destruct (Z.ltb_spec k (Z.of_nat len)); [ reflexivity | lia ].
Qed.

Lemma norm_index_negative (len : nat) (k : Z) :
  - Z.of_nat len <= k < 0 -> norm_index len k = Some (Z.to_nat (Z.of_nat len + k)).
Proof.
  intros [H0 H1]. unfold norm_index.
  destruct (Z.leb_spec 0 k); [ lia | ]. simpl.
  destruct (Z.leb_spec (- Z.of_nat len) k); [ | lia ].
  destruct (Z.ltb_spec k 0); [ reflexivity | lia ].
Qed.

Lemma norm_index_outside (len : nat) (k : Z) :
  k < - Z.of_nat len \/ Z.of_nat len <= k -> norm_index len k = None.
Proof.
  intros Hk. unfold norm_index.
  destruct (Z.leb_spec 0 k), (Z.ltb_spec k (Z.of_nat len)); simpl; try lia;
    destruct (Z.leb_spec (- Z.of_nat len) k), (Z.ltb_spec k 0); simpl;
    try lia; reflexivity.
Qed.

Lemma norm_index_lt (len : nat) (k : Z) (i : nat) :
  norm_index len k = Some i -> (i < len)%nat.
Proof.
  unfold norm_index.
  destruct (Z.leb_spec 0 k), (Z.ltb_spec k (Z.of_nat len)); simpl;
    try (intros E; injection E as <-; lia);
    destruct (Z.leb_spec (- Z.of_nat len) k), (Z.ltb_spec k 0); simpl;
    try discriminate; intros E; injection E as <-; lia.
Qed.

Lemma getitem_nonneg {A : Type} (l : list A) (k : Z) :
  0 <= k < Z.of_nat (length l) ->
  exists x, nth_error l (Z.to_nat k) = Some x /\ getitem l k = Ok x.
Proof.
  intros Hk. unfold getitem. rewrite (norm_index_nonneg _ _ Hk).
  destruct (nth_error l (Z.to_nat k)) as [x | ] eqn:E.
  - exists x. split; reflexivity.
  - apply nth_error_None in E. lia.
Qed.

Lemma getitem_outside {A : Type} (l : list A) (k : Z) :
  k < - Z.of_nat (length l) \/ Z.of_nat (length l) <= k ->
  getitem l k = Raise IndexError.
Proof.
  intros Hk. unfold getitem. now rewrite (norm_index_outside _ _ Hk).
Qed.

Lemma slice_from_nonneg {A : Type} (k : Z) (l : list A) :
  0 <= k -> slice_from (Some k) l = skipn (Z.to_nat k) l.
Proof.
  intros Hk. unfold slice_from. destruct (Z.leb_spec 0 k); [ reflexivity | lia ].
Qed.

End PyFacts.

(* ===================================================================== *)
(** * Properties of author_clustering.py *)
(* ===================================================================== *)

Section ReservoirStates.
Import AuthorClustering.
Context {C : Collaborators}.

(** What [generate_reservoir_states] does when its collaborators return:
    the states are the slice, and four effects are recorded. *)
Lemma generate_reservoir_states_run
  (the_flow : flow) (filename text : string) (doc_array states : matrix)
  (remove_startup : option Z) (w : world) :
  read_file filename = Ok text ->
  pos_converter text = Ok doc_array ->
  run_flow the_flow doc_array = Ok states ->
  generate_reservoir_states the_flow filename remove_startup w =
  Ok (slice_from remove_startup states,
      w ++ [ Printed "Dimensions of the TVR : " (length doc_array);
             PlotSaved (ex_instance ++ ", TVR");
             Printed "Dimensions of the resulting reservoir states : "
               (length (slice_from remove_startup states));
             PlotSaved (ex_instance ++ ", Reservoir states") ]).
Proof.
  intros Hread Hconv Hrun.
  unfold generate_reservoir_states, mbind, lift, emit, ret.
  rewrite Hread, Hconv, Hrun.
  repeat rewrite <- app_assoc. reflexivity.
Qed.

End ReservoirStates.

(** Claim C3 (for [0 <= k < len(states)] the aggregation step returns the
    suffix [states[k:]]: the first [k] states are dropped, the others are
    unchanged and in order; for [k = 0] the sequence is returned as it is). *)
Theorem startup_states_dropped
  (C : AuthorClustering.Collaborators)
  (the_flow : AuthorClustering.flow) (filename text : string)
  (doc_array states : AuthorClustering.matrix) (k : Z) (w : AuthorClustering.world) :
  AuthorClustering.read_file filename = Ok text ->
  AuthorClustering.pos_converter text = Ok doc_array ->
  AuthorClustering.run_flow the_flow doc_array = Ok states ->
  0 <= k < Z.of_nat (length states) ->
  exists (kept : AuthorClustering.matrix) (w' : AuthorClustering.world),
    AuthorClustering.generate_reservoir_states the_flow filename (Some k) w
      = Ok (kept, w')
    /\ kept = skipn (Z.to_nat k) states
    /\ states = firstn (Z.to_nat k) states ++ kept
    /\ length (firstn (Z.to_nat k) states) = Z.to_nat k
    /\ Z.of_nat (length kept) = Z.of_nat (length states) - k
    /\ (forall j : nat, nth_error kept j = nth_error states (Z.to_nat k + j))
    /\ (k = 0 -> kept = states).
Proof.
  intros Hread Hconv Hrun [Hk0 Hk1].
  eexists. eexists. split.
  { apply (generate_reservoir_states_run the_flow filename text doc_array states);
      eassumption. }
  rewrite (slice_from_nonneg k states Hk0).
  split; [ reflexivity | ].
  split; [ symmetry; apply firstn_skipn | ].
  split; [ apply firstn_length_le; lia | ].
  split; [ rewrite length_skipn; lia | ].
  split.
  - intros j. apply nth_error_skipn.
  - intros ->. reflexivity.
Qed.

(** A run of claim C3's statement: three states, one start-up state. *)
Lemma startup_states_dropped_witness :
  exists (kept : AuthorClustering.matrix) (w' : AuthorClustering.world),
    AuthorClustering.generate_reservoir_states
      (C := AuthorClustering.in_memory (fun _ => [[1%Q]; [2%Q]; [3%Q]]) (fun m => m))
      (AuthorClustering.Flow []) "a.txt" (Some 1) [] = Ok (kept, w')
    /\ kept = skipn (Z.to_nat 1) [[1%Q]; [2%Q]; [3%Q]]
    /\ [[1%Q]; [2%Q]; [3%Q]] = firstn (Z.to_nat 1) [[1%Q]; [2%Q]; [3%Q]] ++ kept
    /\ length (firstn (Z.to_nat 1) [[1%Q]; [2%Q]; [3%Q]]) = Z.to_nat 1
    /\ Z.of_nat (length kept) = Z.of_nat (length [[1%Q]; [2%Q]; [3%Q]]) - 1
    /\ (forall j : nat,
          nth_error kept j = nth_error [[1%Q]; [2%Q]; [3%Q]] (Z.to_nat 1 + j))
    /\ (1 = 0 -> kept = [[1%Q]; [2%Q]; [3%Q]]).
Proof.
  apply (startup_states_dropped
           (AuthorClustering.in_memory (fun _ => [[1%Q]; [2%Q]; [3%Q]]) (fun m => m))
           (AuthorClustering.Flow []) "a.txt" "a.txt" [[1%Q]; [2%Q]; [3%Q]]
           [[1%Q]; [2%Q]; [3%Q]] 1 []).
  - reflexivity.
  - reflexivity.
  - reflexivity.
  - simpl. lia.
Defined.

(** Claim C4 as stated fails: with two states and a start-up count of 2 the
    step returns the empty sequence and raises nothing. *)
Lemma startup_at_length_returns_empty :
  exists w' : AuthorClustering.world,
    AuthorClustering.generate_reservoir_states
      (C := AuthorClustering.in_memory (fun _ => [[1%Q]; [2%Q]]) (fun m => m))
      (AuthorClustering.Flow []) "a.txt" (Some 2) [] = Ok ([], w').
Proof. eexists. vm_compute. reflexivity. Qed.

(** Claim C4, amended (a start-up count greater than or equal to the length
    of the state sequence raises nothing: the step returns the empty
    sequence). *)
Theorem startup_past_end_gives_empty
  (C : AuthorClustering.Collaborators)
  (the_flow : AuthorClustering.flow) (filename text : string)
  (doc_array states : AuthorClustering.matrix) (k : Z) (w : AuthorClustering.world) :
  AuthorClustering.read_file filename = Ok text ->
  AuthorClustering.pos_converter text = Ok doc_array ->
  AuthorClustering.run_flow the_flow doc_array = Ok states ->
  Z.of_nat (length states) <= k ->
  exists w' : AuthorClustering.world,
    AuthorClustering.generate_reservoir_states the_flow filename (Some k) w
      = Ok ([], w').
Proof.
  intros Hread Hconv Hrun Hk.
  eexists.
  rewrite (generate_reservoir_states_run the_flow filename text doc_array states
             (Some k) w Hread Hconv Hrun).
  rewrite (slice_from_nonneg k states) by lia.
  rewrite skipn_all2 by lia. reflexivity.
Qed.

Lemma startup_past_end_gives_empty_witness :
  exists w' : AuthorClustering.world,
    AuthorClustering.generate_reservoir_states
      (C := AuthorClustering.in_memory (fun _ => [[1%Q]; [2%Q]]) (fun m => m))
      (AuthorClustering.Flow []) "a.txt" (Some 7) [] = Ok ([], w').
Proof.
  apply (startup_past_end_gives_empty
           (AuthorClustering.in_memory (fun _ => [[1%Q]; [2%Q]]) (fun m => m))
           (AuthorClustering.Flow []) "a.txt" "a.txt" [[1%Q]; [2%Q]] [[1%Q]; [2%Q]] 7 []).
  - reflexivity.
  - reflexivity.
  - reflexivity.
  - simpl. lia.
Defined.

(** Claim C5 ([create_reservoir] fails with a configuration error whenever
    [spectral_radius <= 0]). *)
Theorem create_reservoir_rejects_spectral_radius
  (n_symbols size : Z) (word_sparsity input_scaling leak_rate spectral_radius : Q) :
  (spectral_radius <= 0)%Q ->
  AuthorClustering.create_reservoir n_symbols word_sparsity size input_scaling
    leak_rate spectral_radius = Raise ConfigurationError.
Proof.
  intros Hle. unfold AuthorClustering.create_reservoir,
    AuthorClustering.RCNLPWordReservoirNode.
  apply Qle_bool_iff in Hle. rewrite Hle. reflexivity.
Qed.

Lemma create_reservoir_rejects_spectral_radius_witness :
  AuthorClustering.create_reservoir 14 (5 # 10) 100 (5 # 10) (5 # 100) (- (1 # 2))
  = Raise ConfigurationError.
Proof.
  apply create_reservoir_rejects_spectral_radius.
  unfold Qle. simpl. lia.
Defined.

(** The script's own setting, 0.9, is accepted. *)
Lemma create_reservoir_script_settings :
  AuthorClustering.create_reservoir 14 AuthorClustering.rc_word_sparsity
    AuthorClustering.rc_size AuthorClustering.rc_input_scaling
    AuthorClustering.rc_leak_rate AuthorClustering.rc_spectral_radius
  = Ok (AuthorClustering.Flow
          [AuthorClustering.ReservoirNode 14 100 (5 # 10) (5 # 100) (9 # 10) (5 # 10)]).
Proof. reflexivity. Qed.

(** ** Updating one cell of a nested array *)

Section AlterFacts.
Import AuthorClustering.

Lemma nth_of_nth_error {A : Type} (l : list A) (j : nat) (d : A) :
  nth j l d = match nth_error l j with Some x => x | None => d end.
Proof.
  revert j. induction l as [ | a l IH]; intros [ | j]; simpl; try reflexivity.
  apply IH.
Qed.

Lemma alter_nth_spec {A : Type} (f : A -> result A) (l : list A) :
  forall (i : nat) (x y : A),
    nth_error l i = Some x -> f x = Ok y ->
    exists l',
      alter_nth f i l = Ok l'
      /\ length l' = length l
      /\ nth_error l' i = Some y
      /\ (forall j, j <> i -> nth_error l' j = nth_error l j)
      /\ (forall P : A -> Prop, Forall P l -> P y -> Forall P l')
      /\ (forall w : A -> Q,
            (sumQ (map w l') == sumQ (map w l) + (w y - w x))%Q).
Proof.
  induction l as [ | a l IH]; intros i x y Hnth Hf.
  - destruct i; discriminate Hnth.
  - destruct i as [ | i]; simpl in Hnth.
    + injection Hnth as ->. exists (y :: l). simpl. rewrite Hf. simpl.
      repeat split.
      * intros [ | j] Hj; [ contradiction | reflexivity ].
      * intros P HP Hy. inversion HP; subst. constructor; assumption.
      * intros w. ring.
    + destruct (IH i x y Hnth Hf) as [l' [Hl [Hlen [Hi [Hj [HP Hw]]]]]].
      exists (a :: l'). simpl. rewrite Hl. simpl.
      repeat split.
      * now rewrite Hlen.
      * exact Hi.
      * intros [ | j] Hne; [ reflexivity | ]. simpl. apply Hj. congruence.
      * intros P HPl Hy. inversion HPl; subst. constructor; [ assumption | ].
        apply HP; assumption.
      * intros w. rewrite Hw. ring.
Qed.

Lemma alter_spec {A : Type} (f : A -> result A) (l : list A) (k : Z) (i : nat) (x y : A) :
  norm_index (length l) k = Some i ->
  nth_error l i = Some x -> f x = Ok y ->
  exists l',
    alter f k l = Ok l'
    /\ length l' = length l
    /\ nth_error l' i = Some y
    /\ (forall j, j <> i -> nth_error l' j = nth_error l j)
    /\ (forall P : A -> Prop, Forall P l -> P y -> Forall P l')
    /\ (forall w : A -> Q,
          (sumQ (map w l') == sumQ (map w l) + (w y - w x))%Q).
Proof.
  intros Hk Hnth Hf. unfold alter. rewrite Hk.
  apply alter_nth_spec; assumption.
Qed.

Lemma alter_raises_outside {A : Type} (f : A -> result A) (l : list A) (k : Z) :
  norm_index (length l) k = None -> alter f k l = Raise IndexError.
Proof. intros Hk. unfold alter. now rewrite Hk. Qed.

End AlterFacts.

(** ** The PCA image *)

Section ImageFacts.
Import AuthorClustering.

Lemma sumQ_repeat_zero (n : nat) : (sumQ (repeat 0%Q n) == 0)%Q.
Proof.
  induction n as [ | n IH]; simpl; [ reflexivity | ]. rewrite IH. ring.
Qed.

Lemma sumQ_map_zero {A : Type} (w : A -> Q) (l : list A) :
  (forall a, In a l -> (w a == 0)%Q) -> (sumQ (map w l) == 0)%Q.
Proof.
  induction l as [ | a l IH]; intros Hw; simpl; [ reflexivity | ].
  rewrite (Hw a) by (left; reflexivity).
  rewrite IH by (intros b Hb; apply Hw; right; exact Hb). ring.
Qed.

Lemma zeros_has_shape (a b c : nat) : has_shape a b c (zeros a b c).
Proof.
  unfold has_shape, zeros. split; [ apply repeat_length | ].
  apply Forall_forall. intros plane Hp. apply repeat_spec in Hp. subst plane.
  split; [ apply repeat_length | ].
  apply Forall_forall. intros px Hpx. apply repeat_spec in Hpx. subst px.
  apply repeat_length.
Qed.

Lemma zeros_sum (a b c : nat) : (image_sum (zeros a b c) == 0)%Q.
Proof.
  unfold image_sum, zeros. apply sumQ_map_zero. intros plane Hp.
  apply repeat_spec in Hp. subst plane.
  apply sumQ_map_zero. intros px Hpx. apply repeat_spec in Hpx. subst px.
  apply sumQ_repeat_zero.
Qed.

Lemma nth_repeat_default {A : Type} (d : A) (n j : nat) : nth j (repeat d n) d = d.
Proof.
  revert j. induction n as [ | n IH]; intros [ | j]; simpl; try reflexivity.
  apply IH.
Qed.

Lemma zeros_pixel (x y c : nat) : pixel (zeros 256 256 3) x y c = 0%Q.
Proof.
  unfold pixel, zeros.
  destruct (Nat.lt_ge_cases x 256) as [Hx | Hx].
  - rewrite (nth_indep _ [] (repeat (repeat 0%Q 3) 256)) by (rewrite repeat_length; exact Hx).
    rewrite nth_repeat_default.
    destruct (Nat.lt_ge_cases y 256) as [Hy | Hy].
    + rewrite (nth_indep _ [] (repeat 0%Q 3)) by (rewrite repeat_length; exact Hy).
      rewrite nth_repeat_default. apply nth_repeat_default.
    + rewrite (nth_overflow (repeat (repeat 0%Q 3) 256)) by (rewrite repeat_length; exact Hy).
      now destruct c.
  - rewrite (nth_overflow (repeat (repeat (repeat 0%Q 3) 256) 256))
      by (rewrite repeat_length; exact Hx).
    destruct y; now destruct c.
Qed.

(** [image[x, y, c] += r] on a 256 x 256 x 3 image with valid indices: the
    addressed cell grows by [r], every other cell and the shape stay. *)
Lemma image_add_spec (img : image) (x y c : Z) (xi yi ci : nat) (r : Q) :
  has_shape 256 256 3 img ->
  norm_index 256 x = Some xi ->
  norm_index 256 y = Some yi ->
  norm_index 3 c = Some ci ->
  exists img',
    image_add x y c r img = Ok img'
    /\ has_shape 256 256 3 img'
    /\ pixel img' xi yi ci = (pixel img xi yi ci + r)%Q
    /\ (forall x' y' c', (x', y', c') <> (xi, yi, ci) ->
          pixel img' x' y' c' = pixel img x' y' c')
    /\ (image_sum img' == image_sum img + r)%Q.
Proof.
  intros [Hlen Hall] Hx Hy Hc.
  pose proof (norm_index_lt _ _ _ Hx) as Hxi.
  pose proof (norm_index_lt _ _ _ Hy) as Hyi.
  pose proof (norm_index_lt _ _ _ Hc) as Hci.
  destruct (nth_error img xi) as [plane | ] eqn:Eplane;
    [ | apply nth_error_None in Eplane; lia ].
  assert (Hplane : length plane = 256%nat /\
                   Forall (fun px : list Q => length px = 3%nat) plane).
  { rewrite Forall_forall in Hall. apply Hall. eapply nth_error_In; eassumption. }
  destruct Hplane as [Hplen Hpall].
  destruct (nth_error plane yi) as [px | ] eqn:Epx;
    [ | apply nth_error_None in Epx; lia ].
  assert (Hpx : length px = 3%nat).
  { rewrite Forall_forall in Hpall. apply Hpall. eapply nth_error_In; eassumption. }
  destruct (nth_error px ci) as [p | ] eqn:Ep;
    [ | apply nth_error_None in Ep; lia ].
  destruct (alter_spec (fun p => Ok (p + r)%Q) px c ci p (p + r)%Q)
    as [px' [H1 [H1len [H1i [H1j [_ H1w]]]]]];
    [ rewrite Hpx; exact Hc | exact Ep | reflexivity | ].
  destruct (alter_spec (alter (fun p => Ok (p + r)%Q) c) plane y yi px px')
    as [plane' [H2 [H2len [H2i [H2j [H2P H2w]]]]]];
    [ rewrite Hplen; exact Hy | exact Epx | exact H1 | ].
  destruct (alter_spec (alter (alter (fun p => Ok (p + r)%Q) c) y) img x xi plane plane')
    as [img' [H3 [H3len [H3i [H3j [H3P H3w]]]]]];
    [ rewrite Hlen; exact Hx | exact Eplane | exact H2 | ].
  exists img'. split; [ exact H3 | ]. split; [ | split; [ | split ] ].
  - split; [ congruence | ].
    apply H3P; [ exact Hall | ]. split; [ congruence | ].
    apply H2P; [ exact Hpall | congruence ].
  - unfold pixel.
    rewrite (nth_of_nth_error img' xi), (nth_of_nth_error img xi), H3i, Eplane.
    rewrite (nth_of_nth_error plane' yi), (nth_of_nth_error plane yi), H2i, Epx.
    rewrite (nth_of_nth_error px' ci), (nth_of_nth_error px ci), H1i, Ep.
    reflexivity.
  - intros x' y' c' Hne. unfold pixel.
    destruct (Nat.eq_dec x' xi) as [-> | Hx'].
    + rewrite (nth_of_nth_error img' xi), (nth_of_nth_error img xi), H3i, Eplane.
      destruct (Nat.eq_dec y' yi) as [-> | Hy'].
      * rewrite (nth_of_nth_error plane' yi), (nth_of_nth_error plane yi), H2i, Epx.
        assert (Hc' : c' <> ci) by congruence.
        rewrite (nth_of_nth_error px' c'), (nth_of_nth_error px c'), (H1j c' Hc').
        reflexivity.
      * rewrite (nth_of_nth_error plane' y'), (nth_of_nth_error plane y'), (H2j y' Hy').
        reflexivity.
    + rewrite (nth_of_nth_error img' x'), (nth_of_nth_error img x'), (H3j x' Hx').
      reflexivity.
  - unfold image_sum.
    rewrite (H3w (fun plane => sumQ (map sumQ plane))), (H2w sumQ).
    specialize (H1w (fun q => q)). rewrite !map_id in H1w. rewrite H1w. ring.
Qed.

End ImageFacts.

Section AccumulateFacts.
Import AuthorClustering.

Lemma inject_Z_of_nat_succ (n : nat) :
  (inject_Z (Z.of_nat (S n)) == inject_Z (Z.of_nat n) + 1)%Q.
Proof.
  rewrite Nat2Z.inj_succ, <- Z.add_1_r, inject_Z_plus. reflexivity.
Qed.

Lemma target_inv (index1 index2 : Z) (s : list Q) (x y : nat) :
  target index1 index2 s = Some (x, y) ->
  exists v1 v2,
    getitem s index1 = Ok v1 /\ getitem s index2 = Ok v2 /\
    norm_index 256 (pixel_index v1) = Some x /\
    norm_index 256 (pixel_index v2) = Some y.
Proof.
  unfold target.
  destruct (getitem s index1) as [v1 | ]; [ | discriminate ].
  destruct (getitem s index2) as [v2 | ]; [ | discriminate ].
  destruct (norm_index 256 (pixel_index v1)) as [x' | ] eqn:Ex; [ | discriminate ].
  destruct (norm_index 256 (pixel_index v2)) as [y' | ] eqn:Ey; [ | discriminate ].
  intros E. injection E as <- <-. exists v1, v2. repeat split; assumption.
Qed.

(** One point adds [n_ratio] to one cell of its channel, and to nothing
    else. *)
Lemma accumulate_spec (channel : Z) (ci : nat) (n_ratio : Q) (index1 index2 : Z)
  (s : list Q) (img : image) (x y : nat) :
  has_shape 256 256 3 img ->
  norm_index 3 channel = Some ci ->
  target index1 index2 s = Some (x, y) ->
  exists img',
    accumulate channel n_ratio index1 index2 s img = Ok img'
    /\ has_shape 256 256 3 img'
    /\ pixel img' x y ci = (pixel img x y ci + n_ratio)%Q
    /\ (forall x' y' c', (x', y', c') <> (x, y, ci) ->
          pixel img' x' y' c' = pixel img x' y' c')
    /\ (image_sum img' == image_sum img + n_ratio)%Q.
Proof.
  intros Hshape Hc Ht.
  destruct (target_inv _ _ _ _ _ Ht) as [v1 [v2 [H1 [H2 [Hx Hy]]]]].
  unfold accumulate. rewrite H1, H2. cbn [Py.bind].
  apply image_add_spec; assumption.
Qed.

(** A point outside the image stops the accumulation. *)
Lemma accumulate_raises (channel : Z) (n_ratio : Q) (index1 index2 : Z)
  (s : list Q) (img : image) :
  has_shape 256 256 3 img ->
  target index1 index2 s = None ->
  accumulate channel n_ratio index1 index2 s img = Raise IndexError.
Proof.
  intros [Hlen Hall] Ht. unfold accumulate, target in *.
  destruct (getitem s index1) as [v1 | e1] eqn:E1.
  2:{ unfold getitem in E1.
      destruct (norm_index (length s) index1) as [i | ]; [ | now inversion E1 ].
      destruct (nth_error s i); [ discriminate | now inversion E1 ]. }
  destruct (getitem s index2) as [v2 | e2] eqn:E2.
  2:{ unfold getitem in E2. cbn [Py.bind].
      destruct (norm_index (length s) index2) as [i | ]; [ | now inversion E2 ].
      destruct (nth_error s i); [ discriminate | now inversion E2 ]. }
  cbn [Py.bind]. unfold image_add.
  destruct (norm_index 256 (pixel_index v1)) as [x | ] eqn:Ex.
  - destruct (norm_index 256 (pixel_index v2)) as [y | ] eqn:Ey; [ discriminate | ].
    unfold alter at 1. rewrite Hlen, Ex.
    pose proof (norm_index_lt _ _ _ Ex) as Hx.
    destruct (nth_error img x) as [plane | ] eqn:Eplane;
      [ | apply nth_error_None in Eplane; lia ].
    assert (Hplane : length plane = 256%nat).
    { rewrite Forall_forall in Hall. apply (Hall plane).
      eapply nth_error_In; eassumption. }
    clear Hall Hlen Ht Ex. revert x Hx Eplane.
    induction img as [ | a img IH]; intros x Hx Eplane.
    + destruct x; discriminate Eplane.
    + destruct x as [ | x]; simpl in Eplane |- *.
      * injection Eplane as ->.
        rewrite (alter_raises_outside _ plane _) by (rewrite Hplane; exact Ey).
        reflexivity.
      * assert (Hx' : (x < 256)%nat) by lia.
        rewrite (IH x Hx' Eplane). reflexivity.
  - apply alter_raises_outside. rewrite Hlen. exact Ex.
Qed.

End AccumulateFacts.

Section LoopFacts.
Import AuthorClustering.

Lemma hits_cons (index1 index2 : Z) (x y : nat) (s : list Q) (points : matrix) :
  hits index1 index2 x y (s :: points) =
  if lands_on index1 index2 x y s then S (hits index1 index2 x y points)
  else hits index1 index2 x y points.
Proof.
  unfold hits. simpl. destruct (lands_on index1 index2 x y s); reflexivity.
Qed.

(** One loop of [generate_pca_image] over points that all fall into the
    image: every cell of the loop's channel has grown by [n_ratio] per point
    accumulated there, the other channels are as before. *)
Lemma accumulate_all_spec (channel : Z) (ci : nat) (n_ratio : Q)
  (index1 index2 : Z) (points : matrix) :
  norm_index 3 channel = Some ci ->
  Forall (fun s => target index1 index2 s <> None) points ->
  forall img : image,
    has_shape 256 256 3 img ->
    exists img',
      for_each (accumulate channel n_ratio index1 index2) points img = Ok img'
      /\ has_shape 256 256 3 img'
      /\ (forall x y,
            (pixel img' x y ci ==
             pixel img x y ci
             + inject_Z (Z.of_nat (hits index1 index2 x y points)) * n_ratio)%Q)
      /\ (forall x y c, c <> ci -> pixel img' x y c = pixel img x y c)
      /\ (image_sum img' ==
          image_sum img + inject_Z (Z.of_nat (length points)) * n_ratio)%Q.
Proof.
  intros Hc. induction points as [ | s points IH]; intros Hin img Hshape.
  - exists img. split; [ reflexivity | ]. split; [ exact Hshape | ].
    split; [ | split ].
    + intros x y. unfold hits. simpl. ring.
    + reflexivity.
    + simpl. ring.
  - inversion Hin as [ | s' points' Hs Hin']; subst.
    destruct (target index1 index2 s) as [[xs ys] | ] eqn:Ht; [ | contradiction ].
    destruct (accumulate_spec channel ci n_ratio index1 index2 s img xs ys Hshape Hc Ht)
      as [img1 [Hacc [Hshape1 [Hhit [Hrest Hsum]]]]].
    destruct (IH Hin' img1 Hshape1) as [img' [Hloop [Hshape' [Hpix [Hother Hsum']]]]].
    exists img'. split; [ | split; [ exact Hshape' | split; [ | split ] ] ].
    + simpl. rewrite Hacc. exact Hloop.
    + intros x y. rewrite Hpix, hits_cons.
      destruct (lands_on index1 index2 x y s) eqn:El.
      * unfold lands_on in El. rewrite Ht in El.
        apply andb_true_iff in El. destruct El as [Ex Ey].
        apply Nat.eqb_eq in Ex. apply Nat.eqb_eq in Ey. subst xs ys.
        rewrite Hhit, inject_Z_of_nat_succ. ring.
      * rewrite (Hrest x y ci).
        -- reflexivity.
        -- intros E. injection E as -> ->.
           unfold lands_on in El. rewrite Ht, !Nat.eqb_refl in El. discriminate El.
    + intros x y c Hne. rewrite (Hother x y c Hne). apply Hrest. congruence.
    + rewrite Hsum', Hsum. cbn [length]. rewrite inject_Z_of_nat_succ. ring.
Qed.

(** The whole of [generate_pca_image] on points that all fall into the
    image. *)
Lemma generate_pca_image_spec (states1 states2 : matrix) (index1 index2 : Z) :
  (0 < length states1 + length states2)%nat ->
  Forall (fun s => target index1 index2 s <> None) states1 ->
  Forall (fun s => target index1 index2 s <> None) states2 ->
  let n_ratio := (256 / inject_Z (Z.of_nat (length states1 + length states2)))%Q in
  exists img,
    generate_pca_image states1 states2 index1 index2 = Ok img
    /\ has_shape 256 256 3 img
    /\ (forall x y c,
          (pixel img x y c ==
           inject_Z (Z.of_nat (hits index1 index2 x y (drawn_in c states1 states2)))
           * n_ratio)%Q)
    /\ (image_sum img ==
        inject_Z (Z.of_nat (length states1 + length states2)) * n_ratio)%Q.
Proof.
  intros Hn H1 H2 n_ratio. unfold generate_pca_image.
  destruct (Nat.eqb_spec (length states1 + length states2) 0) as [E | _]; [ lia | ].
  fold n_ratio.
  destruct (accumulate_all_spec 1 1 n_ratio index1 index2 states1 eq_refl H1
              (zeros 256 256 3) (zeros_has_shape 256 256 3))
    as [img1 [Hl1 [Hs1 [Hp1 [Ho1 Hsum1]]]]].
  destruct (accumulate_all_spec 2 2 n_ratio index1 index2 states2 eq_refl H2 img1 Hs1)
    as [img2 [Hl2 [Hs2 [Hp2 [Ho2 Hsum2]]]]].
  exists img2. rewrite Hl1. cbn [Py.bind]. rewrite Hl2. cbn [Py.bind].
  split; [ reflexivity | ]. split; [ exact Hs2 | ]. split.
  - intros x y c.
    destruct (Nat.eq_dec c 2) as [-> | Hc2].
    + rewrite Hp2, (Ho1 x y 2%nat) by discriminate. rewrite zeros_pixel.
      simpl drawn_in. ring.
    + rewrite (Ho2 x y c Hc2).
      destruct (Nat.eq_dec c 1) as [-> | Hc1].
      * rewrite Hp1, zeros_pixel. simpl drawn_in. ring.
      * rewrite (Ho1 x y c Hc1), zeros_pixel.
        replace (drawn_in c states1 states2) with (@nil (list Q)).
        -- unfold hits. simpl. ring.
        -- destruct c as [ | [ | [ | c]]]; try reflexivity; contradiction.
  - rewrite Hsum2, Hsum1, zeros_sum, Nat2Z.inj_add, inject_Z_plus. ring.
Qed.

End LoopFacts.

Section PixelFacts.
Import AuthorClustering.

Lemma hits_nil (index1 index2 : Z) (x y : nat) : hits index1 index2 x y [] = 0%nat.
Proof. reflexivity. Qed.

End PixelFacts.

(** ** The main block *)

Section MainFacts.
Import AuthorClustering.
Context {C : Collaborators}.

Lemma mbind_ok {A B : Type} (c : M A) (k : A -> M B) (w w1 : world) (a : A) :
  c w = Ok (a, w1) -> mbind c k w = k a w1.
Proof. intros E. unfold mbind. rewrite E. reflexivity. Qed.

Lemma lift_ok {A : Type} (c : result A) (a : A) (w : world) :
  c = Ok a -> lift c w = Ok (a, w).
Proof. intros ->. reflexivity. Qed.

Lemma emit_ok (e : event) (w : world) : emit e w = Ok (tt, w ++ [e]).
Proof. reflexivity. Qed.

(** The flow the main block creates. *)
Lemma main_flow :
  create_reservoir 14 rc_word_sparsity rc_size rc_input_scaling rc_leak_rate
    rc_spectral_radius
  = Ok (Flow [ReservoirNode 14 100 (5 # 10) (5 # 100) (9 # 10) (5 # 10)]).
Proof. reflexivity. Qed.

Lemma pca_events_app (w1 w2 : world) :
  pca_events (w1 ++ w2) = pca_events w1 ++ pca_events w2.
Proof. apply filter_app. Qed.

End MainFacts.

(** Claim C9 (the linear reducer is fitted once, on the vertical
    concatenation of both authors' state matrices, and then applied through
    [transform] to each author's matrix; nothing refits it between the two
    transforms, so both images come from the same fitted model).  The
    reducer's calls recorded by a run of the main block are exactly
    [fit(state1 + state2)], [transform(state1)], [transform(state2)], in
    this order. *)
Theorem reducer_fitted_once_on_union
  (C : AuthorClustering.Collaborators) (args : AuthorClustering.arguments)
  (w : AuthorClustering.world)
  (text1 text2 : string) (doc1 doc2 all1 all2 t1 t2 : AuthorClustering.matrix)
  (model : AuthorClustering.pca_model) (img : AuthorClustering.image) :
  let the_flow :=
    AuthorClustering.Flow
      [AuthorClustering.ReservoirNode 14 100 (5 # 10) (5 # 100) (9 # 10) (5 # 10)] in
  let state1 := slice_from (AuthorClustering.startup args) all1 in
  let state2 := slice_from (AuthorClustering.startup args) all2 in
  AuthorClustering.read_file (AuthorClustering.author1 args) = Ok text1 ->
  AuthorClustering.pos_converter text1 = Ok doc1 ->
  AuthorClustering.run_flow the_flow doc1 = Ok all1 ->
  AuthorClustering.read_file (AuthorClustering.author2 args) = Ok text2 ->
  AuthorClustering.pos_converter text2 = Ok doc2 ->
  AuthorClustering.run_flow the_flow doc2 = Ok all2 ->
  same_width (state1 ++ state2) = true ->
  AuthorClustering.pca_fit (AuthorClustering.ncomponents args) (state1 ++ state2)
    = Ok model ->
  AuthorClustering.pca_transform model state1 = Ok t1 ->
  AuthorClustering.pca_transform model state2 = Ok t2 ->
  AuthorClustering.generate_pca_image t1 t2 0 1 = Ok img ->
  exists w' : AuthorClustering.world,
    AuthorClustering.main args w = Ok (img, w')
    /\ AuthorClustering.pca_events w' =
       AuthorClustering.pca_events w ++
       [ AuthorClustering.PcaFit (state1 ++ state2);
         AuthorClustering.PcaTransform state1;
         AuthorClustering.PcaTransform state2 ].
Proof.
  intros the_flow state1 state2 Hr1 Hc1 Hf1 Hr2 Hc2 Hf2 Hwidth Hfit Ht1 Ht2 Himg.
  eexists. split.
  - unfold AuthorClustering.main.
    rewrite (mbind_ok _ _ w w _ (lift_ok _ _ w main_flow)).
    rewrite (mbind_ok _ _ _ _ _
               (generate_reservoir_states_run the_flow _ text1 doc1 all1 _ w Hr1 Hc1 Hf1)).
    rewrite (mbind_ok _ _ _ _ _
               (generate_reservoir_states_run the_flow _ text2 doc2 all2 _ _ Hr2 Hc2 Hf2)).
    fold state1 state2.
    unfold vstack. cbn [atleast_2d]. rewrite Hwidth.
    unfold AuthorClustering.mbind at 1. cbn [AuthorClustering.lift atleast_2d].
    unfold AuthorClustering.mbind at 1. rewrite emit_ok.
    unfold AuthorClustering.mbind at 1. rewrite emit_ok.
    unfold AuthorClustering.PCA_fit, AuthorClustering.PCA_transform.
    cbn [AuthorClustering.n_components AuthorClustering.fitted].
    unfold AuthorClustering.mbind, AuthorClustering.emit, AuthorClustering.lift,
      AuthorClustering.ret.
    rewrite Hfit. cbn [AuthorClustering.fitted]. rewrite Ht1, Ht2, Himg.
    reflexivity.
  - repeat rewrite pca_events_app. simpl. repeat rewrite app_nil_r.
    repeat rewrite <- app_assoc. reflexivity.
Qed.

Lemma reducer_fitted_once_on_union_witness :
  exists w' : AuthorClustering.world,
    AuthorClustering.main (C := AuthorClustering.example_collaborators)
      AuthorClustering.example_args [] = Ok (AuthorClustering.example_image, w')
    /\ AuthorClustering.pca_events w' =
       AuthorClustering.pca_events [] ++
       [ AuthorClustering.PcaFit
           (AuthorClustering.example_states1 ++ AuthorClustering.example_states2);
         AuthorClustering.PcaTransform AuthorClustering.example_states1;
         AuthorClustering.PcaTransform AuthorClustering.example_states2 ].
Proof.
  apply (reducer_fitted_once_on_union
           AuthorClustering.example_collaborators AuthorClustering.example_args []
           "author1" "author2"
           AuthorClustering.example_states1 AuthorClustering.example_states2
           AuthorClustering.example_states1 AuthorClustering.example_states2
           AuthorClustering.example_states1 AuthorClustering.example_states2
           (Some 2) AuthorClustering.example_image).
  - reflexivity.
  - reflexivity.
  - reflexivity.
  - reflexivity.
  - reflexivity.
  - reflexivity.
  - reflexivity.
  - reflexivity.
  - reflexivity.
  - reflexivity.
  - vm_compute. reflexivity.
Defined.

(* ===================================================================== *)
(** * Properties of author_clustering_document_embeddings.py *)
(* ===================================================================== *)

(** ** The stable sort *)

Section SortFacts.
Context {A K : Type} (key : A -> K) (ltb : K -> K -> bool).

(** [<] on keys is asymmetric and "not smaller" is transitive. *)
Hypothesis ltb_asym : forall a b, ltb a b = true -> ltb b a = false.
Hypothesis ltb_negtrans :
  forall a b c, ltb b a = false -> ltb c b = false -> ltb c a = false.

(** [earlier x y]: [x] stands before [y] in the list to be sorted. *)
Variable earlier : A -> A -> Prop.

Let stable_order := stable_order key ltb earlier.

Lemma insert_by_perm (x : A) (l : list A) :
  Permutation (insert_by key ltb x l) (x :: l).
Proof.
  induction l as [ | y l IH]; simpl; [ apply Permutation_refl | ].
  destruct (ltb (key y) (key x)); [ | apply Permutation_refl ].
  eapply Permutation_trans; [ apply perm_skip; exact IH | apply perm_swap ].
Qed.

Lemma sort_by_perm (l : list A) : Permutation (sort_by key ltb l) l.
Proof.
  induction l as [ | x l IH]; simpl; [ constructor | ].
  eapply Permutation_trans; [ apply insert_by_perm | apply perm_skip; exact IH ].
Qed.

Lemma insert_by_sorted (x : A) (l : list A) :
  StronglySorted stable_order l ->
  Forall (earlier x) l ->
  StronglySorted stable_order (insert_by key ltb x l).
Proof.
  induction l as [ | y l IH]; intros Hs He; simpl.
  - constructor; constructor.
  - apply StronglySorted_inv in Hs. destruct Hs as [Hs Hy].
    inversion He as [ | y' l' Hxy Hxl]; subst.
    destruct (ltb (key y) (key x)) eqn:Hlt.
    + constructor; [ apply IH; assumption | ].
      eapply Permutation_Forall; [ apply Permutation_sym, insert_by_perm | ].
      constructor; [ | exact Hy ].
      split; [ apply ltb_asym; exact Hlt | ].
      intros Hc. rewrite Hlt in Hc. discriminate Hc.
    + constructor; [ constructor; assumption | ].
      constructor.
      * split; [ exact Hlt | intros _; exact Hxy ].
      * rewrite Forall_forall in Hy, Hxl |- *. intros z Hz.
        destruct (Hy z Hz) as [Hzy _]. split.
        -- apply (ltb_negtrans _ (key y)); assumption.
        -- intros _. apply Hxl. exact Hz.
Qed.

(** Sorting a list whose elements stand in [earlier] order gives a list in
    [stable_order]. *)
Lemma sort_by_sorted (l : list A) :
  StronglySorted earlier l -> StronglySorted stable_order (sort_by key ltb l).
Proof.
  induction l as [ | x l IH]; intros Hs; simpl; [ constructor | ].
  apply StronglySorted_inv in Hs. destruct Hs as [Hs Hx].
  apply insert_by_sorted; [ apply IH; exact Hs | ].
  eapply Permutation_Forall; [ apply Permutation_sym, sort_by_perm | exact Hx ].
Qed.

End SortFacts.

Lemma StronglySorted_weaken {A : Type} (R1 R2 : A -> A -> Prop) (l : list A) :
  (forall x y, R1 x y -> R2 x y) -> StronglySorted R1 l -> StronglySorted R2 l.
Proof.
  intros HR. induction 1 as [ | x l _ IH Hx]; constructor; [ exact IH | ].
  eapply Forall_impl; [ | exact Hx ]. intros y. apply HR.
Qed.

Lemma range_sorted (n : nat) : StronglySorted Z.lt (range n).
Proof.
  unfold range. generalize 0%nat as start.
  induction n as [ | n IH]; intros start; simpl; constructor; [ apply IH | ].
  apply Forall_forall. intros z Hz. apply in_map_iff in Hz.
  destruct Hz as [k [<- Hk]]. apply in_seq in Hk. lia.
Qed.

Lemma range_In (n : nat) (z : Z) : In z (range n) <-> 0 <= z < Z.of_nat n.
Proof.
  unfold range. rewrite in_map_iff. split.
  - intros [k [<- Hk]]. apply in_seq in Hk. lia.
  - intros Hz. exists (Z.to_nat z). split; [ lia | ]. apply in_seq. lia.
Qed.

Lemma filter_sorted {A : Type} (R : A -> A -> Prop) (f : A -> bool) (l : list A) :
  StronglySorted R l -> StronglySorted R (filter f l).
Proof.
  induction 1 as [ | x l _ IH Hx]; simpl; [ constructor | ].
  destruct (f x); [ | exact IH ]. constructor; [ exact IH | ].
  rewrite Forall_forall in Hx |- *. intros y Hy. apply filter_In in Hy.
  apply Hx. tauto.
Qed.

Lemma map_sorted {A B : Type} (R : A -> A -> Prop) (R' : B -> B -> Prop)
  (f : A -> B) (l : list A) :
  (forall x y, R x y -> R' (f x) (f y)) ->
  StronglySorted R l -> StronglySorted R' (map f l).
Proof.
  intros HR. induction 1 as [ | x l _ IH Hx]; simpl; constructor; [ exact IH | ].
  rewrite Forall_forall in Hx |- *. intros y Hy. apply in_map_iff in Hy.
  destruct Hy as [a [<- Ha]]. apply HR, Hx, Ha.
Qed.

Lemma sorted_lt_NoDup (l : list Z) : StronglySorted Z.lt l -> NoDup l.
Proof.
  induction 1 as [ | x l _ IH Hx]; constructor; [ | exact IH ].
  intros Hin. rewrite Forall_forall in Hx. specialize (Hx x Hin). lia.
Qed.

(** ** The similarity ranker *)

Section RankerFacts.
Import DocumentEmbeddings.
Context {vec D : Type} (euclidean : vec -> vec -> D) (ltb : D -> D -> bool).

Lemma column_valid (m : list vec) (n : Z) (d : vec) :
  0 <= n < Z.of_nat (length m) ->
  column m n = Ok (nth (Z.to_nat n) m d).
Proof.
  intros Hn. unfold column.
  destruct (getitem_nonneg m n Hn) as [x [Hx ->]].
  now rewrite (nth_error_nth _ _ d Hx).
Qed.

(** The loop, when the query column exists: the pairs of the visited
    indices other than the query, in the order visited. *)
Lemma similarity_loop_spec (i : Z) (m : list vec) (u : vec) :
  column m i = Ok u ->
  forall (ns : list Z) (acc : list (Z * D)),
    (forall n, In n ns -> 0 <= n < Z.of_nat (length m)) ->
    for_each (similarity_step euclidean i m) ns acc =
    Ok (acc ++ distances_from euclidean u m
                 (filter (fun n => negb (n =? i)) ns)).
Proof.
  intros Hu. induction ns as [ | n ns IH]; intros acc Hns; simpl.
  - now rewrite app_nil_r.
  - unfold similarity_step at 1.
    destruct (negb (n =? i)) eqn:Hni.
    + rewrite Hu. cbn [Py.bind].
      rewrite (column_valid m n u) by (apply Hns; left; reflexivity).
      cbn [Py.bind].
      rewrite IH by (intros n' Hn'; apply Hns; right; exact Hn').
      simpl. now rewrite <- app_assoc.
    + cbn [Py.bind]. apply IH. intros n' Hn'. apply Hns. right. exact Hn'.
Qed.

Lemma get_similar_documents_valid (i : Z) (m : list vec) (d : vec) :
  0 <= i < Z.of_nat (length m) ->
  get_similar_documents euclidean ltb i m =
  Ok (sort_by snd ltb
        (distances_from euclidean (nth (Z.to_nat i) m d) m (others i m))).
Proof.
  intros Hi. unfold get_similar_documents.
  rewrite (similarity_loop_spec i m (nth (Z.to_nat i) m d)).
  - reflexivity.
  - apply column_valid. exact Hi.
  - intros n Hn. apply range_In. exact Hn.
Qed.

Lemma distances_from_fst (u : vec) (m : list vec) (ns : list Z) :
  map fst (distances_from euclidean u m ns) = ns.
Proof.
  unfold distances_from. rewrite map_map. simpl. apply map_id.
Qed.

Lemma others_length_aux (i : Z) (n start : nat) :
  length (filter (fun z => negb (z =? i)) (map Z.of_nat (seq start n))) =
  if (Z.of_nat start <=? i) && (i <? Z.of_nat (start + n)) then (n - 1)%nat else n.
Proof.
  revert start. induction n as [ | n IH]; intros start.
  - simpl. now destruct ((Z.of_nat start <=? i) && (i <? Z.of_nat (start + 0))).
  - cbn [seq map filter]. specialize (IH (S start)).
    destruct (Z.eqb_spec (Z.of_nat start) i) as [E | E]; cbn [negb length].
    + rewrite IH.
      destruct (Z.leb_spec (Z.of_nat (S start)) i); [ lia | ].
      destruct (Z.leb_spec (Z.of_nat start) i); [ | lia ].
      destruct (Z.ltb_spec i (Z.of_nat (start + S n))); [ | lia ].
      simpl. lia.
    + rewrite IH.
      destruct (Z.leb_spec (Z.of_nat (S start)) i),
               (Z.ltb_spec i (Z.of_nat (S start + n))),
               (Z.leb_spec (Z.of_nat start) i),
               (Z.ltb_spec i (Z.of_nat (start + S n))); simpl; lia.
Qed.

Lemma others_length (i : Z) (m : list vec) :
  0 <= i < Z.of_nat (length m) ->
  length (others i m) = (length m - 1)%nat.
Proof.
  intros Hi. unfold others, range. rewrite others_length_aux.
  destruct (Z.leb_spec (Z.of_nat 0) i); [ | lia ].
  destruct (Z.ltb_spec i (Z.of_nat (0 + length m))); [ reflexivity | lia ].
Qed.

Lemma others_sorted (i : Z) (m : list vec) : StronglySorted Z.lt (others i m).
Proof. apply filter_sorted, range_sorted. Qed.

Lemma others_In (i : Z) (m : list vec) (n : Z) :
  In n (others i m) <-> 0 <= n < Z.of_nat (length m) /\ n <> i.
Proof.
  unfold others. rewrite filter_In, range_In.
  destruct (Z.eqb_spec n i); simpl; intuition congruence.
Qed.

(** A matrix with one column: index 0 is the column itself, index -1 is the
    same column counted from the end, any other index does not exist. *)
Lemma get_similar_documents_single (c : vec) (i : Z) :
  get_similar_documents euclidean ltb i [c] =
  if i =? 0 then Ok []
  else if i =? -1 then Ok [(0, euclidean c c)]
  else Raise IndexError.
Proof.
  unfold get_similar_documents. cbn [length range seq map for_each].
  unfold similarity_step. cbn [Z.of_nat]. rewrite (Z.eqb_sym 0 i).
  destruct (Z.eqb_spec i 0) as [-> | H0]; [ reflexivity | ].
  cbn [negb]. unfold column.
  destruct (Z.eqb_spec i (-1)) as [-> | H1]; [ reflexivity | ].
  rewrite (getitem_outside [c] i) by (simpl; lia). reflexivity.
Qed.

Lemma get_similar_documents_empty (i : Z) :
  get_similar_documents euclidean ltb i [] = Ok [].
Proof. reflexivity. Qed.

End RankerFacts.

Section RealOrder.
Import DocumentEmbeddings.

Lemma Rltb_true (x y : R) : Rltb x y = true <-> (x < y)%R.
Proof.
  unfold Rltb. destruct (Rlt_dec x y); split; intros; try assumption;
    try reflexivity; try discriminate; contradiction.
Qed.

Lemma Rltb_false (x y : R) : Rltb x y = false <-> (y <= x)%R.
Proof.
  unfold Rltb. destruct (Rlt_dec x y); split; intros; try lra;
    try reflexivity; discriminate.
Qed.

Lemma Rltb_asym (a b : R) : Rltb a b = true -> Rltb b a = false.
Proof. rewrite Rltb_true, Rltb_false. lra. Qed.

Lemma Rltb_negtrans (a b c : R) :
  Rltb b a = false -> Rltb c b = false -> Rltb c a = false.
Proof. rewrite !Rltb_false. lra. Qed.

Lemma stable_order_ranked (p q : Z * R) :
  stable_order snd Rltb (fun x y : Z * R => fst x < fst y) p q -> ranked p q.
Proof.
  unfold stable_order, ranked. rewrite Rltb_false. intros [Hle Htie].
  split; [ exact Hle | ]. intros E. apply Htie. apply Rltb_false. lra.
Qed.

Lemma euclidean_example_AB : euclidean [0; 0]%R [1; 0]%R = 1%R.
Proof.
  unfold euclidean, sum_sq_diff. cbn [combine map fold_right fst snd].
  replace ((0 - 1) * (0 - 1) + ((0 - 0) * (0 - 0) + 0))%R with 1%R by ring.
  apply sqrt_1.
Qed.

Lemma euclidean_example_AC : euclidean [0; 0]%R [3; 4]%R = 5%R.
Proof.
  unfold euclidean, sum_sq_diff. cbn [combine map fold_right fst snd].
  replace ((0 - 3) * (0 - 3) + ((0 - 4) * (0 - 4) + 0))%R with (5 * 5)%R by ring.
  apply sqrt_square. lra.
Qed.

End RealOrder.

(** Claim C1 (for a matrix with at least 2 columns and a valid column index
    [i], the ranker returns one pair [(j, distance)] for every other column
    [j], that is [column_count - 1] pairs and none for [i] itself; the
    distance is the Euclidean distance between columns [i] and [j]; the
    pairs are sorted by ascending distance and pairs at the same distance
    stand by increasing [j]; for the columns A=(0,0), B=(1,0), C=(3,4) the
    ranking from A is [(B, 1); (C, 5)]). *)
Theorem ranking_of_other_documents :
  (forall (m : list (list R)) (i : Z),
      (2 <= length m)%nat ->
      0 <= i < Z.of_nat (length m) ->
      exists l : list (Z * R),
        DocumentEmbeddings.get_similar_documents
          DocumentEmbeddings.euclidean DocumentEmbeddings.Rltb i m = Ok l
        /\ length l = (length m - 1)%nat
        /\ ~ In i (map fst l)
        /\ NoDup (map fst l)
        /\ (forall j, 0 <= j < Z.of_nat (length m) -> j <> i ->
              In (j, DocumentEmbeddings.euclidean
                       (nth (Z.to_nat i) m []) (nth (Z.to_nat j) m [])) l)
        /\ (forall j d, In (j, d) l ->
              0 <= j < Z.of_nat (length m)
              /\ d = DocumentEmbeddings.euclidean
                       (nth (Z.to_nat i) m []) (nth (Z.to_nat j) m []))
        /\ StronglySorted DocumentEmbeddings.ranked l)
  /\ DocumentEmbeddings.get_similar_documents
       DocumentEmbeddings.euclidean DocumentEmbeddings.Rltb
       0 DocumentEmbeddings.example_embeddings
     = Ok [(1, 1%R); (2, 5%R)].
Proof.
  split.
  - intros m i Hm Hi.
    set (u := nth (Z.to_nat i) m []).
    set (pairs := DocumentEmbeddings.distances_from DocumentEmbeddings.euclidean
                    u m (DocumentEmbeddings.others i m)).
    assert (Hperm : Permutation
                      (sort_by snd DocumentEmbeddings.Rltb pairs) pairs)
      by apply sort_by_perm.
    assert (Hpairs : forall j d, In (j, d) pairs <->
              (0 <= j < Z.of_nat (length m) /\ j <> i)
              /\ d = DocumentEmbeddings.euclidean u (nth (Z.to_nat j) m [])).
    { intros j d. unfold pairs, DocumentEmbeddings.distances_from.
      rewrite in_map_iff. split.
      - intros [n [E Hn]]. apply others_In in Hn. injection E as <- <-.
        split; [ exact Hn | ]. f_equal. apply nth_indep. lia.
      - intros [Hj ->]. exists j. split; [ | apply others_In; exact Hj ].
        f_equal. f_equal. apply nth_indep. lia. }
    exists (sort_by snd DocumentEmbeddings.Rltb pairs).
    split; [ apply get_similar_documents_valid; exact Hi | ].
    split.
    { rewrite (Permutation_length Hperm). unfold pairs,
        DocumentEmbeddings.distances_from.
      rewrite length_map. apply others_length. exact Hi. }
    assert (Hfst : Permutation (map fst (sort_by snd DocumentEmbeddings.Rltb pairs))
                     (DocumentEmbeddings.others i m)).
    { eapply Permutation_trans; [ apply Permutation_map; exact Hperm | ].
      unfold pairs. rewrite distances_from_fst. apply Permutation_refl. }
    split.
    { intros Hin. apply (Permutation_in _ Hfst) in Hin.
      apply others_In in Hin. destruct Hin as [_ Hne]. now apply Hne. }
    split.
    { eapply Permutation_NoDup; [ apply Permutation_sym; exact Hfst | ].
      apply sorted_lt_NoDup, others_sorted. }
    split.
    { intros j Hj Hne. apply (Permutation_in _ (Permutation_sym Hperm)).
      apply Hpairs. split; [ split; assumption | reflexivity ]. }
    split.
    { intros j d Hin. apply (Permutation_in _ Hperm) in Hin.
      apply Hpairs in Hin. destruct Hin as [[Hj _] Hd]. split; assumption. }
    apply (StronglySorted_weaken
             (stable_order snd DocumentEmbeddings.Rltb
                (fun x y : Z * R => fst x < fst y))).
    { exact stable_order_ranked. }
    apply sort_by_sorted.
    + exact Rltb_asym.
    + exact Rltb_negtrans.
    + unfold pairs, DocumentEmbeddings.distances_from.
      apply (map_sorted Z.lt); [ intros x y Hxy; exact Hxy | ].
      apply others_sorted.
  - rewrite (get_similar_documents_valid DocumentEmbeddings.euclidean
               DocumentEmbeddings.Rltb 0 DocumentEmbeddings.example_embeddings [])
      by (simpl; lia).
    change (Ok (sort_by snd DocumentEmbeddings.Rltb
                  [ (1, DocumentEmbeddings.euclidean [0; 0]%R [1; 0]%R);
                    (2, DocumentEmbeddings.euclidean [0; 0]%R [3; 4]%R) ])
            = Ok [(1, 1%R); (2, 5%R)]).
    rewrite euclidean_example_AB, euclidean_example_AC.
    cbn [sort_by fold_right insert_by snd].
    assert (H51 : DocumentEmbeddings.Rltb 5 1 = false) by (apply Rltb_false; lra).
    rewrite H51. reflexivity.
Qed.

Lemma ranking_of_other_documents_witness :
  exists l : list (Z * R),
    DocumentEmbeddings.get_similar_documents
      DocumentEmbeddings.euclidean DocumentEmbeddings.Rltb
      0 DocumentEmbeddings.example_embeddings = Ok l
    /\ length l = (length DocumentEmbeddings.example_embeddings - 1)%nat
    /\ ~ In 0 (map fst l)
    /\ NoDup (map fst l)
    /\ (forall j,
          0 <= j < Z.of_nat (length DocumentEmbeddings.example_embeddings) ->
          j <> 0 ->
          In (j, DocumentEmbeddings.euclidean
                   (nth (Z.to_nat 0) DocumentEmbeddings.example_embeddings [])
                   (nth (Z.to_nat j) DocumentEmbeddings.example_embeddings [])) l)
    /\ (forall j d, In (j, d) l ->
          0 <= j < Z.of_nat (length DocumentEmbeddings.example_embeddings)
          /\ d = DocumentEmbeddings.euclidean
                   (nth (Z.to_nat 0) DocumentEmbeddings.example_embeddings [])
                   (nth (Z.to_nat j) DocumentEmbeddings.example_embeddings []))
    /\ StronglySorted DocumentEmbeddings.ranked l.
Proof.
  apply (proj1 ranking_of_other_documents DocumentEmbeddings.example_embeddings 0).
  - simpl. lia.
  - simpl. lia.
Defined.

(** Claim C2 as stated fails: on a single-column matrix the ranker raises
    nothing for the query index 0 and returns the empty list. *)
Lemma single_column_returns_empty :
  DocumentEmbeddings.get_similar_documents
    DocumentEmbeddings.euclidean DocumentEmbeddings.Rltb 0 [[0; 0]%R] = Ok [].
Proof. reflexivity. Qed.

(** Claim C2, amended (the ranker checks no column count and never raises a
    [ConfigurationError]: on a single-column matrix it returns the empty
    list for the query index 0, the column's distance to itself for the
    index -1, which numpy reads as the same column, and raises numpy's
    [IndexError] for every other index; on a matrix without columns it
    returns the empty list). *)
Theorem single_column_ranking (c : list R) (i : Z) :
  DocumentEmbeddings.get_similar_documents
    DocumentEmbeddings.euclidean DocumentEmbeddings.Rltb i [c]
  = (if i =? 0 then Ok []
     else if i =? -1 then Ok [(0, DocumentEmbeddings.euclidean c c)]
     else Raise IndexError)
  /\ DocumentEmbeddings.get_similar_documents
       DocumentEmbeddings.euclidean DocumentEmbeddings.Rltb i [] = Ok [].
Proof.
  split.
  - apply get_similar_documents_single.
  - apply get_similar_documents_empty.
Qed.

(* ===================================================================== *)
(** * Further properties of the tag converter *)
(* ===================================================================== *)

Section TagConverterEdges.
Import RCNLPTagConverter.
Local Open Scope string_scope.

Variable symbol_of : string -> option (list Q).
Variable exclude : list string.

Lemma loop_none_retained (doc : list token) :
  (forall w, In w doc -> retained symbol_of exclude [] w = false) ->
  forall (index : nat) (a : ndarray),
    call_loop symbol_of exclude [] index doc a = Ok a.
Proof.
  induction doc as [ | w doc IH]; intros Hnone index a; [ reflexivity | ].
  rewrite (loop_cons symbol_of exclude).
  rewrite (step_not_retained symbol_of exclude index w a)
    by (apply Hnone; left; reflexivity).
  cbn [Py.bind]. apply IH. intros w' Hw'. apply Hnone. right. exact Hw'.
Qed.

Lemma step_first_retained (w0 : token) (a : ndarray) :
  retained symbol_of exclude [] w0 = true ->
  exists sym0,
    symbol_of (tag_ w0) = Some sym0 /\
    call_step symbol_of exclude [] 0 w0 a = Ok (Arr1 sym0).
Proof.
  unfold retained, call_step. intros Hk.
  destruct (negb (in_strings (tag_ w0) exclude) && negb (in_tokens w0 []));
    [ | discriminate Hk ].
  destruct (symbol_of (tag_ w0)) as [sym0 | ]; [ | discriminate Hk ].
  exists sym0. split; reflexivity.
Qed.

End TagConverterEdges.

Lemma tag_to_symbol_width (tag : string) (sym : list Q) :
  RCNLPTagConverter.tag_to_symbol tag = Some sym -> length sym = 45%nat.
Proof.
  unfold RCNLPTagConverter.tag_to_symbol.
  destruct (RCNLPTagConverter.index_of tag RCNLPTagConverter.get_tags);
    [ | discriminate ].
  intros E. injection E as <-. unfold RCNLPTagConverter.one_hot.
  rewrite length_map, length_seq. reflexivity.
Qed.

Lemma tag_to_symbol_nonempty (tag : string) (sym : list Q) :
  RCNLPTagConverter.tag_to_symbol tag = Some sym -> sym <> [].
Proof.
  intros Hs E. apply tag_to_symbol_width in Hs. subst sym. discriminate Hs.
Qed.

Lemma call_rows_first_retained_witness :
  exists a,
    RCNLPTagConverter.__call__ RCNLPTagConverter.example_nlp
      RCNLPTagConverter.tag_to_symbol (fun a => Ok a) "dogs, bark"
      [","%string] [] = Ok a
    /\ atleast_2d a =
       RCNLPTagConverter.retained_symbols RCNLPTagConverter.tag_to_symbol
         [","%string] [] (RCNLPTagConverter.example_nlp "dogs, bark").
Proof.
  apply (call_rows_first_retained RCNLPTagConverter.example_nlp
           RCNLPTagConverter.tag_to_symbol (fun a => Ok a) [","%string]
           "dogs, bark" (RCNLPTagConverter.Token "dogs" "NNS")
           [RCNLPTagConverter.Token "," ","; RCNLPTagConverter.Token "bark" "VBP"]
           45%nat).
  - reflexivity.
  - vm_compute. reflexivity.
  - exact tag_to_symbol_width.
Defined.

Lemma call_raises_first_dropped_witness :
  RCNLPTagConverter.__call__ RCNLPTagConverter.example_nlp
    RCNLPTagConverter.tag_to_symbol (fun a => Ok a) "dogs, bark"
    ["NNS"%string] [] = Raise ValueError.
Proof.
  apply (call_raises_first_dropped RCNLPTagConverter.example_nlp
           RCNLPTagConverter.tag_to_symbol (fun a => Ok a) ["NNS"%string]
           "dogs, bark" (RCNLPTagConverter.Token "dogs" "NNS")
           [RCNLPTagConverter.Token "," ","; RCNLPTagConverter.Token "bark" "VBP"]).
  - reflexivity.
  - vm_compute. reflexivity.
  - exists (RCNLPTagConverter.Token "," ","). split.
    + left. reflexivity.
    + vm_compute. reflexivity.
  - exact tag_to_symbol_nonempty.
Defined.

(** Property X3.  With the default [word_exclude=[]]: when no token of the
    document is retained (in particular when the document is empty), the
    converter raises nothing: [reduce] receives the empty rank-1 array the
    loop started from. *)
Theorem call_nothing_retained
  (nlp : string -> list RCNLPTagConverter.token)
  (symbol_of : string -> option (list Q))
  (reduce : ndarray -> result ndarray)
  (text : string) (exclude : list string) :
  (forall w, In w (nlp text) ->
     RCNLPTagConverter.retained symbol_of exclude [] w = false) ->
  RCNLPTagConverter.__call__ nlp symbol_of reduce text exclude []
  = reduce (Arr1 []).
Proof.
  intros Hnone. unfold RCNLPTagConverter.__call__.
  rewrite (loop_none_retained symbol_of exclude (nlp text) Hnone).
  reflexivity.
Qed.

Lemma call_nothing_retained_witness :
  RCNLPTagConverter.__call__ RCNLPTagConverter.example_nlp
    RCNLPTagConverter.tag_to_symbol (fun a => Ok a) "dogs, bark"
    ["NNS"; ","; "VBP"]%string [] = Ok (Arr1 []).
Proof.
  apply (call_nothing_retained RCNLPTagConverter.example_nlp
           RCNLPTagConverter.tag_to_symbol (fun a => Ok a) "dogs, bark"
           ["NNS"; ","; "VBP"]%string).
  intros w Hw. simpl in Hw.
  destruct Hw as [<- | [<- | [<- | []]]]; vm_compute; reflexivity.
Defined.

(** Property X4.  With the default [word_exclude=[]]: when the first token
    is the only retained one, [reduce] receives that token's symbol as a
    rank-1 array (shape [(width,)]), not as a matrix with one row. *)
Theorem call_single_row_is_rank1
  (nlp : string -> list RCNLPTagConverter.token)
  (symbol_of : string -> option (list Q))
  (reduce : ndarray -> result ndarray)
  (text : string) (exclude : list string)
  (w0 : RCNLPTagConverter.token) (rest : list RCNLPTagConverter.token) :
  nlp text = w0 :: rest ->
  RCNLPTagConverter.retained symbol_of exclude [] w0 = true ->
  (forall w, In w rest ->
     RCNLPTagConverter.retained symbol_of exclude [] w = false) ->
  exists sym0,
    symbol_of (RCNLPTagConverter.tag_ w0) = Some sym0
    /\ RCNLPTagConverter.__call__ nlp symbol_of reduce text exclude []
       = reduce (Arr1 sym0).
Proof.
  intros Hdoc Hk Hrest. unfold RCNLPTagConverter.__call__. rewrite Hdoc.
  rewrite (loop_cons symbol_of exclude).
  destruct (step_first_retained symbol_of exclude w0 (Arr1 []) Hk)
    as [sym0 [Hs Hstep]].
  exists sym0. split; [ exact Hs | ].
  rewrite Hstep. cbn [Py.bind].
  rewrite (loop_none_retained symbol_of exclude rest Hrest).
  reflexivity.
Qed.

Lemma call_single_row_is_rank1_witness :
  exists sym0,
    RCNLPTagConverter.tag_to_symbol "NNS" = Some sym0
    /\ RCNLPTagConverter.__call__ RCNLPTagConverter.example_nlp
         RCNLPTagConverter.tag_to_symbol (fun a => Ok a) "dogs, bark"
         [","; "VBP"]%string [] = Ok (Arr1 sym0).
Proof.
  apply (call_single_row_is_rank1 RCNLPTagConverter.example_nlp
           RCNLPTagConverter.tag_to_symbol (fun a => Ok a) "dogs, bark"
           [","; "VBP"]%string (RCNLPTagConverter.Token "dogs" "NNS")
           [RCNLPTagConverter.Token "," ","; RCNLPTagConverter.Token "bark" "VBP"]).
  - reflexivity.
  - vm_compute. reflexivity.
  - intros w Hw. simpl in Hw.
    destruct Hw as [<- | [<- | []]]; vm_compute; reflexivity.
Defined.

(* ===================================================================== *)
(** * Further properties of author_clustering.py *)
(* ===================================================================== *)

(** Property X5.  A negative start-up count is not rejected: the slice keeps
    the last [-k] states, or all of them when there are fewer. *)
Theorem negative_startup_keeps_tail
  (C : AuthorClustering.Collaborators)
  (the_flow : AuthorClustering.flow) (filename text : string)
  (doc_array states : AuthorClustering.matrix) (k : Z) (w : AuthorClustering.world) :
  AuthorClustering.read_file filename = Ok text ->
  AuthorClustering.pos_converter text = Ok doc_array ->
  AuthorClustering.run_flow the_flow doc_array = Ok states ->
  k < 0 ->
  exists (kept : AuthorClustering.matrix) (w' : AuthorClustering.world),
    AuthorClustering.generate_reservoir_states the_flow filename (Some k) w
      = Ok (kept, w')
    /\ kept = skipn (length states - Z.to_nat (- k)) states
    /\ Z.of_nat (length kept) = Z.min (- k) (Z.of_nat (length states)).
Proof.
  intros Hread Hconv Hrun Hk. eexists. eexists. split.
  { apply (generate_reservoir_states_run the_flow filename text doc_array states);
      eassumption. }
  assert (E : slice_from (Some k) states
              = skipn (length states - Z.to_nat (- k)) states).
  { unfold slice_from. destruct (Z.leb_spec 0 k); [ lia | ].
    f_equal. lia. }
  rewrite E. split; [ reflexivity | ]. rewrite length_skipn. lia.
Qed.

Lemma negative_startup_keeps_tail_witness :
  exists (kept : AuthorClustering.matrix) (w' : AuthorClustering.world),
    AuthorClustering.generate_reservoir_states
      (C := AuthorClustering.in_memory (fun _ => [[1%Q]; [2%Q]; [3%Q]]) (fun m => m))
      (AuthorClustering.Flow []) "a.txt" (Some (-2)) [] = Ok (kept, w')
    /\ kept = skipn (length [[1%Q]; [2%Q]; [3%Q]] - Z.to_nat (- -2))
                [[1%Q]; [2%Q]; [3%Q]]
    /\ Z.of_nat (length kept)
       = Z.min (- -2) (Z.of_nat (length [[1%Q]; [2%Q]; [3%Q]])).
Proof.
  apply (negative_startup_keeps_tail
           (AuthorClustering.in_memory (fun _ => [[1%Q]; [2%Q]; [3%Q]]) (fun m => m))
           (AuthorClustering.Flow []) "a.txt" "a.txt" [[1%Q]; [2%Q]; [3%Q]]
           [[1%Q]; [2%Q]; [3%Q]] (-2) []).
  - reflexivity.
  - reflexivity.
  - reflexivity.
  - lia.
Defined.

Section ImageErrors.
Import AuthorClustering.

Lemma in_range_or_not (index1 index2 : Z) (points : matrix) :
  Forall (fun s => target index1 index2 s <> None) points \/
  Exists (fun s => target index1 index2 s = None) points.
Proof.
  induction points as [ | s points [IH | IH]].
  - left. constructor.
  - destruct (target index1 index2 s) eqn:Ht.
    + left. constructor; [ rewrite Ht; discriminate | exact IH ].
    + right. left. exact Ht.
  - right. right. exact IH.
Qed.

Lemma in_range_not_both (index1 index2 : Z) (points : matrix) :
  Forall (fun s => target index1 index2 s <> None) points ->
  Exists (fun s => target index1 index2 s = None) points -> False.
Proof.
  intros Hall Hex. apply Exists_exists in Hex. destruct Hex as [s [Hin Hs]].
  rewrite Forall_forall in Hall. exact (Hall s Hin Hs).
Qed.

(** A loop over points one of which misses the image raises [IndexError]. *)
Lemma accumulate_all_raises (channel : Z) (ci : nat) (n_ratio : Q)
  (index1 index2 : Z) (points : matrix) :
  norm_index 3 channel = Some ci ->
  Exists (fun s => target index1 index2 s = None) points ->
  forall img : image,
    has_shape 256 256 3 img ->
    for_each (accumulate channel n_ratio index1 index2) points img
    = Raise IndexError.
Proof.
  intros Hc. induction points as [ | s points IH]; intros Hex img Hshape.
  - inversion Hex.
  - simpl. destruct (target index1 index2 s) as [[x y] | ] eqn:Ht.
    + destruct (accumulate_spec channel ci n_ratio index1 index2 s img x y
                  Hshape Hc Ht) as [img1 [Hacc [Hshape1 _]]].
      rewrite Hacc. cbn [Py.bind].
      apply IH; [ | exact Hshape1 ].
      inversion Hex as [s' l' Hs | s' l' Hl]; subst; [ congruence | exact Hl ].
    + rewrite (accumulate_raises channel n_ratio index1 index2 s img Hshape Ht).
      reflexivity.
Qed.

Lemma generate_pca_image_raises (states1 states2 : matrix) (index1 index2 : Z) :
  (0 < length states1 + length states2)%nat ->
  Exists (fun s => target index1 index2 s = None) (states1 ++ states2) ->
  generate_pca_image states1 states2 index1 index2 = Raise IndexError.
Proof.
  intros Hn Hex. unfold generate_pca_image.
  destruct (Nat.eqb_spec (length states1 + length states2) 0) as [E | _]; [ lia | ].
  set (n_ratio := (256 / inject_Z (Z.of_nat (length states1 + length states2)))%Q).
  destruct (in_range_or_not index1 index2 states1) as [H1 | H1].
  - destruct (accumulate_all_spec 1 1 n_ratio index1 index2 states1 eq_refl H1
                (zeros 256 256 3) (zeros_has_shape 256 256 3))
      as [img1 [Hl1 [Hs1 _]]].
    rewrite Hl1. cbn [Py.bind].
    apply Exists_app in Hex. destruct Hex as [Hex | Hex].
    + destruct (in_range_not_both _ _ _ H1 Hex).
    + rewrite (accumulate_all_raises 2 2 n_ratio index1 index2 states2 eq_refl
                 Hex img1 Hs1).
      reflexivity.
  - rewrite (accumulate_all_raises 1 1 n_ratio index1 index2 states1 eq_refl H1
               (zeros 256 256 3) (zeros_has_shape 256 256 3)).
    reflexivity.
Qed.

(** What a returned image tells: there were points, all in range, and the
    image is the one described by [generate_pca_image_spec]. *)
Lemma generate_pca_image_inv (states1 states2 : matrix) (index1 index2 : Z)
  (img : image) :
  generate_pca_image states1 states2 index1 index2 = Ok img ->
  (0 < length states1 + length states2)%nat
  /\ Forall (fun s => target index1 index2 s <> None) states1
  /\ Forall (fun s => target index1 index2 s <> None) states2
  /\ has_shape 256 256 3 img
  /\ (forall x y c,
        (pixel img x y c ==
         inject_Z (Z.of_nat (hits index1 index2 x y (drawn_in c states1 states2)))
         * (256 / inject_Z (Z.of_nat (length states1 + length states2))))%Q).
Proof.
  intros Hrun.
  assert (Hn : (0 < length states1 + length states2)%nat).
  { destruct states1, states2; simpl; try lia. discriminate Hrun. }
  assert (Hall : Forall (fun s => target index1 index2 s <> None)
                   (states1 ++ states2)).
  { destruct (in_range_or_not index1 index2 (states1 ++ states2)) as [H | H];
      [ exact H | ].
    rewrite (generate_pca_image_raises states1 states2 index1 index2 Hn H) in Hrun.
    discriminate Hrun. }
  apply Forall_app in Hall. destruct Hall as [H1 H2].
  destruct (generate_pca_image_spec states1 states2 index1 index2 Hn H1 H2)
    as [img' [Hrun' [Hshape [Hpix _]]]].
  rewrite Hrun in Hrun'. injection Hrun' as E. subst img'.
  split; [ exact Hn | ]. split; [ exact H1 | ]. split; [ exact H2 | ].
  split; [ exact Hshape | exact Hpix ].
Qed.

End ImageErrors.


(** Property X7.  Every image [generate_pca_image] returns has the shape
    256 x 256 x 3 it was created with. *)
Theorem returned_image_shape
  (states1 states2 : AuthorClustering.matrix) (index1 index2 : Z)
  (img : AuthorClustering.image) :
  AuthorClustering.generate_pca_image states1 states2 index1 index2 = Ok img ->
  AuthorClustering.has_shape 256 256 3 img.
Proof.
  intros Hrun.
  destruct (generate_pca_image_inv states1 states2 index1 index2 img Hrun)
    as [_ [_ [_ [Hshape _]]]].
  exact Hshape.
Qed.

Lemma returned_image_shape_witness :
  AuthorClustering.has_shape 256 256 3 AuthorClustering.example_image.
Proof.
  apply (returned_image_shape AuthorClustering.example_states1
           AuthorClustering.example_states2 0 1).
  vm_compute. reflexivity.
Defined.

(** Property X8.  [generate_pca_image] never draws into channel 0: in every
    returned image all cells outside the channels 1 and 2 are 0. *)
Theorem channel_0_stays_empty
  (states1 states2 : AuthorClustering.matrix) (index1 index2 : Z)
  (img : AuthorClustering.image) :
  AuthorClustering.generate_pca_image states1 states2 index1 index2 = Ok img ->
  forall x y c, c <> 1%nat -> c <> 2%nat ->
    (AuthorClustering.pixel img x y c == 0)%Q.
Proof.
  intros Hrun x y c Hc1 Hc2.
  destruct (generate_pca_image_inv states1 states2 index1 index2 img Hrun)
    as [_ [_ [_ [_ Hpix]]]].
  rewrite Hpix.
  replace (AuthorClustering.drawn_in c states1 states2) with (@nil (list Q)).
  - rewrite hits_nil. simpl. ring.
  - destruct c as [ | [ | [ | c]]]; try reflexivity; contradiction.
Qed.

Lemma channel_0_stays_empty_witness :
  (AuthorClustering.pixel AuthorClustering.example_image 128 128 0 == 0)%Q.
Proof.
  apply (channel_0_stays_empty AuthorClustering.example_states1
           AuthorClustering.example_states2 0 1 AuthorClustering.example_image).
  - vm_compute. reflexivity.
  - discriminate.
  - discriminate.
Defined.

Section ImageSymmetries.
Import AuthorClustering.

Lemma hits_perm (index1 index2 : Z) (x y : nat) (l l' : matrix) :
  Permutation l l' -> hits index1 index2 x y l = hits index1 index2 x y l'.
Proof.
  induction 1 as [ | s l l' _ IH | s t l | l l' l'' _ IH1 _ IH2].
  - reflexivity.
  - rewrite !hits_cons, IH. reflexivity.
  - rewrite !hits_cons.
    destruct (lands_on index1 index2 x y s), (lands_on index1 index2 x y t);
      reflexivity.
  - congruence.
Qed.

Lemma in_range_perm (index1 index2 : Z) (l l' : matrix) :
  Permutation l l' ->
  Forall (fun s => target index1 index2 s <> None) l ->
  Forall (fun s => target index1 index2 s <> None) l'.
Proof. intros Hp. apply Permutation_Forall. exact Hp. Qed.

End ImageSymmetries.

(** Property X10.  The image does not depend on the order of the points:
    reordering either point set gives an image with the same cell values. *)
Theorem point_order_is_irrelevant
  (states1 states1' states2 states2' : AuthorClustering.matrix)
  (index1 index2 : Z) (img : AuthorClustering.image) :
  Permutation states1 states1' ->
  Permutation states2 states2' ->
  AuthorClustering.generate_pca_image states1 states2 index1 index2 = Ok img ->
  exists img',
    AuthorClustering.generate_pca_image states1' states2' index1 index2 = Ok img'
    /\ forall x y c,
         (AuthorClustering.pixel img' x y c == AuthorClustering.pixel img x y c)%Q.
Proof.
  intros Hp1 Hp2 Hrun.
  destruct (generate_pca_image_inv states1 states2 index1 index2 img Hrun)
    as [Hn [H1 [H2 [_ Hpix]]]].
  assert (Hlen : (length states1' + length states2'
                  = length states1 + length states2)%nat).
  { rewrite (Permutation_length Hp1), (Permutation_length Hp2). reflexivity. }
  destruct (generate_pca_image_spec states1' states2' index1 index2)
    as [img' [Hrun' [_ [Hpix' _]]]].
  - lia.
  - exact (in_range_perm index1 index2 _ _ Hp1 H1).
  - exact (in_range_perm index1 index2 _ _ Hp2 H2).
  - exists img'. split; [ exact Hrun' | ].
    intros x y c. rewrite Hpix', Hpix, Hlen.
    assert (Hh : AuthorClustering.hits index1 index2 x y
                   (AuthorClustering.drawn_in c states1' states2')
                 = AuthorClustering.hits index1 index2 x y
                     (AuthorClustering.drawn_in c states1 states2)).
    { destruct c as [ | [ | [ | c]]]; simpl; try reflexivity;
        apply hits_perm; apply Permutation_sym; assumption. }
    rewrite Hh. reflexivity.
Qed.

Lemma point_order_is_irrelevant_witness :
  exists img',
    AuthorClustering.generate_pca_image
      (rev AuthorClustering.example_states1) AuthorClustering.example_states2 0 1
    = Ok img'
    /\ forall x y c,
         (AuthorClustering.pixel img' x y c
          == AuthorClustering.pixel AuthorClustering.example_image x y c)%Q.
Proof.
  apply (point_order_is_irrelevant
           AuthorClustering.example_states1 (rev AuthorClustering.example_states1)
           AuthorClustering.example_states2 AuthorClustering.example_states2 0 1).
  - apply Permutation_rev.
  - apply Permutation_refl.
  - vm_compute. reflexivity.
Defined.

(** Property X11.  Exchanging the two point sets exchanges the channels 1
    and 2 of the image and changes nothing else. *)
Theorem swapping_sets_swaps_channels
  (states1 states2 : AuthorClustering.matrix) (index1 index2 : Z)
  (img : AuthorClustering.image) :
  AuthorClustering.generate_pca_image states1 states2 index1 index2 = Ok img ->
  exists img',
    AuthorClustering.generate_pca_image states2 states1 index1 index2 = Ok img'
    /\ forall x y,
         (AuthorClustering.pixel img' x y 1 == AuthorClustering.pixel img x y 2)%Q
         /\ (AuthorClustering.pixel img' x y 2
             == AuthorClustering.pixel img x y 1)%Q
         /\ (AuthorClustering.pixel img' x y 0
             == AuthorClustering.pixel img x y 0)%Q.
Proof.
  intros Hrun.
  destruct (generate_pca_image_inv states1 states2 index1 index2 img Hrun)
    as [Hn [H1 [H2 [_ Hpix]]]].
  assert (Hlen : (length states2 + length states1
                  = length states1 + length states2)%nat) by lia.
  destruct (generate_pca_image_spec states2 states1 index1 index2)
    as [img' [Hrun' [_ [Hpix' _]]]].
  - lia.
  - exact H2.
  - exact H1.
  - exists img'. split; [ exact Hrun' | ].
    intros x y. rewrite !Hpix', !Hpix, Hlen. simpl AuthorClustering.drawn_in.
    repeat split; reflexivity.
Qed.

Lemma swapping_sets_swaps_channels_witness :
  exists img',
    AuthorClustering.generate_pca_image
      AuthorClustering.example_states2 AuthorClustering.example_states1 0 1
    = Ok img'
    /\ forall x y,
         (AuthorClustering.pixel img' x y 1
          == AuthorClustering.pixel AuthorClustering.example_image x y 2)%Q
         /\ (AuthorClustering.pixel img' x y 2
             == AuthorClustering.pixel AuthorClustering.example_image x y 1)%Q
         /\ (AuthorClustering.pixel img' x y 0
             == AuthorClustering.pixel AuthorClustering.example_image x y 0)%Q.
Proof.
  apply (swapping_sets_swaps_channels
           AuthorClustering.example_states1 AuthorClustering.example_states2 0 1).
  vm_compute. reflexivity.
Defined.

(** ** Truncation towards zero *)

Section Truncation.
Import AuthorClustering.

Lemma int_nonneg (x : Q) : 0 <= Qnum x -> int x = Qfloor x.
Proof.
  destruct x as [n d]. simpl. intros Hn. unfold int. simpl.
  apply Z.quot_div_nonneg; lia.
Qed.

Lemma int_nonpos (x : Q) : Qnum x <= 0 -> int x = Qceiling x.
Proof.
  destruct x as [n d]. simpl. intros Hn. unfold int, Qceiling. simpl.
  replace n with (- - n) at 1 by lia.
  rewrite Z.quot_opp_l by lia. f_equal.
  apply Z.quot_div_nonneg; lia.
Qed.

Lemma Qnum_nonneg (x : Q) : 0 <= Qnum x <-> (0 <= x)%Q.
Proof. destruct x as [n d]. unfold Qle. simpl. lia. Qed.

(** [int] is monotone. *)
Lemma int_monotone (x y : Q) : (x <= y)%Q -> int x <= int y.
Proof.
  intros Hxy.
  destruct (Z.le_gt_cases 0 (Qnum x)) as [Hx | Hx];
    destruct (Z.le_gt_cases 0 (Qnum y)) as [Hy | Hy].
  - rewrite (int_nonneg x Hx), (int_nonneg y Hy). apply Qfloor_resp_le, Hxy.
  - exfalso. apply Qnum_nonneg in Hx.
    assert (Hy' : (y < 0)%Q) by (destruct y; unfold Qlt; simpl in *; lia).
    apply (Qlt_irrefl 0). eapply Qle_lt_trans; [ | exact Hy' ].
    eapply Qle_trans; eassumption.
  - rewrite (int_nonpos x) by lia. rewrite (int_nonneg y Hy).
    assert (Hx' : (x <= 0)%Q) by (destruct x; unfold Qle; simpl in *; lia).
    pose proof (Qceiling_resp_le x 0 Hx') as Hc. change (Qceiling 0) with 0 in Hc.
    apply Qnum_nonneg in Hy.
    pose proof (Qfloor_resp_le 0 y Hy) as Hf. change (Qfloor 0) with 0 in Hf.
    lia.
  - rewrite (int_nonpos x), (int_nonpos y) by lia. apply Qceiling_resp_le, Hxy.
Qed.

End Truncation.

(** Property X14.  The pixel index is monotone in the coordinate. *)
Theorem pixel_index_monotone (v v' : Q) :
  (v <= v')%Q ->
  AuthorClustering.pixel_index v <= AuthorClustering.pixel_index v'.
Proof.
  intros Hle. unfold AuthorClustering.pixel_index. apply int_monotone.
  Lqa.lra.
Qed.

Lemma pixel_index_monotone_witness :
  AuthorClustering.pixel_index (- (2)) <= AuthorClustering.pixel_index (1 # 2).
Proof.
  apply (pixel_index_monotone (- (2)) (1 # 2)). discriminate.
Defined.

(** Property X15.  When the start-up count is at least the length of both
    authors' state sequences, the main block yields no image: no state is
    left, and with a reducer whose [transform] keeps the number of rows the
    run ends in an exception (the reducer's own, or [ZeroDivisionError] from
    [generate_pca_image]). *)
Theorem main_without_states_raises
  (C : AuthorClustering.Collaborators) (args : AuthorClustering.arguments)
  (w : AuthorClustering.world) (k : Z)
  (text1 text2 : string) (doc1 doc2 all1 all2 : AuthorClustering.matrix) :
  let the_flow :=
    AuthorClustering.Flow
      [AuthorClustering.ReservoirNode 14 100 (5 # 10) (5 # 100) (9 # 10) (5 # 10)] in
  AuthorClustering.startup args = Some k ->
  AuthorClustering.read_file (AuthorClustering.author1 args) = Ok text1 ->
  AuthorClustering.pos_converter text1 = Ok doc1 ->
  AuthorClustering.run_flow the_flow doc1 = Ok all1 ->
  AuthorClustering.read_file (AuthorClustering.author2 args) = Ok text2 ->
  AuthorClustering.pos_converter text2 = Ok doc2 ->
  AuthorClustering.run_flow the_flow doc2 = Ok all2 ->
  Z.of_nat (length all1) <= k ->
  Z.of_nat (length all2) <= k ->
  (forall model X t,
     AuthorClustering.pca_transform model X = Ok t -> length t = length X) ->
  exists e : error, AuthorClustering.main args w = Raise e.
Proof.
  intros the_flow Hk Hr1 Hc1 Hf1 Hr2 Hc2 Hf2 Hl1 Hl2 Hrows.
  assert (E1 : slice_from (AuthorClustering.startup args) all1 = []).
  { rewrite Hk, slice_from_nonneg by lia. apply skipn_all2. lia. }
  assert (E2 : slice_from (AuthorClustering.startup args) all2 = []).
  { rewrite Hk, slice_from_nonneg by lia. apply skipn_all2. lia. }
  unfold AuthorClustering.main.
  rewrite (mbind_ok _ _ w w _ (lift_ok _ _ w main_flow)).
  rewrite (mbind_ok _ _ _ _ _
             (generate_reservoir_states_run the_flow _ text1 doc1 all1 _ w
                Hr1 Hc1 Hf1)).
  rewrite (mbind_ok _ _ _ _ _
             (generate_reservoir_states_run the_flow _ text2 doc2 all2 _ _
                Hr2 Hc2 Hf2)).
  rewrite E1, E2.
  unfold vstack. cbn [atleast_2d app same_width].
  unfold AuthorClustering.mbind at 1. cbn [AuthorClustering.lift atleast_2d].
  unfold AuthorClustering.mbind at 1. rewrite emit_ok.
  unfold AuthorClustering.mbind at 1. rewrite emit_ok.
  unfold AuthorClustering.PCA_fit, AuthorClustering.PCA_transform.
  cbn [AuthorClustering.n_components AuthorClustering.fitted].
  unfold AuthorClustering.mbind, AuthorClustering.emit, AuthorClustering.lift,
    AuthorClustering.ret.
  destruct (AuthorClustering.pca_fit (AuthorClustering.ncomponents args) [])
    as [model | e]; [ | exists e; reflexivity ].
  cbn [AuthorClustering.fitted].
  destruct (AuthorClustering.pca_transform model []) as [t | e] eqn:Ht;
    [ | exists e; reflexivity ].
  apply Hrows in Ht. destruct t; [ | discriminate Ht ].
  exists ZeroDivisionError. reflexivity.
Qed.

Lemma main_without_states_raises_witness :
  exists e : error,
    AuthorClustering.main (C := AuthorClustering.example_collaborators)
      (AuthorClustering.Arguments_ "author1" "author2" (Some 5) (Some 2) None "en")
      [] = Raise e.
Proof.
  apply (main_without_states_raises AuthorClustering.example_collaborators
           (AuthorClustering.Arguments_ "author1" "author2" (Some 5) (Some 2)
              None "en")
           [] 5 "author1" "author2"
           AuthorClustering.example_states1 AuthorClustering.example_states2
           AuthorClustering.example_states1 AuthorClustering.example_states2).
  - reflexivity.
  - reflexivity.
  - reflexivity.
  - reflexivity.
  - reflexivity.
  - reflexivity.
  - reflexivity.
  - simpl. lia.
  - simpl. lia.
  - intros model X t. simpl. intros E. injection E as <-.
    destruct model; [ apply length_map | reflexivity ].
Defined.

(* ===================================================================== *)
(** * Further properties of the similarity ranker *)
(* ===================================================================== *)

Section RankerEdges.
Import DocumentEmbeddings.
Context {vec D : Type} (euclidean : vec -> vec -> D) (ltb : D -> D -> bool).

Lemma column_negative (m : list vec) (i : Z) (d : vec) :
  - Z.of_nat (length m) <= i < 0 ->
  column m i = Ok (nth (Z.to_nat (Z.of_nat (length m) + i)) m d).
Proof.
  intros Hi. unfold column, getitem. rewrite (norm_index_negative _ _ Hi).
  destruct (nth_error m (Z.to_nat (Z.of_nat (length m) + i))) as [x | ] eqn:E.
  - now rewrite (nth_error_nth _ _ d E).
  - apply nth_error_None in E. lia.
Qed.

Lemma others_of_negative (m : list vec) (i : Z) :
  i < 0 -> others i m = range (length m).
Proof.
  intros Hi. unfold others. apply forallb_filter_id.
  apply forallb_forall. intros n Hn. apply range_In in Hn.
  destruct (Z.eqb_spec n i); [ lia | reflexivity ].
Qed.

(** With a negative index that numpy accepts, no column is skipped. *)
Lemma get_similar_documents_negative (i : Z) (m : list vec) (d : vec) :
  - Z.of_nat (length m) <= i < 0 ->
  get_similar_documents euclidean ltb i m =
  Ok (sort_by snd ltb
        (distances_from euclidean
           (nth (Z.to_nat (Z.of_nat (length m) + i)) m d) m (range (length m)))).
Proof.
  intros Hi. unfold get_similar_documents.
  rewrite (similarity_loop_spec euclidean i m
             (nth (Z.to_nat (Z.of_nat (length m) + i)) m d)).
  - fold (others i m). rewrite others_of_negative by lia. reflexivity.
  - apply column_negative. exact Hi.
  - intros n Hn. apply range_In. exact Hn.
Qed.

(** An index that numpy rejects makes the first pass of the loop raise. *)
Lemma get_similar_documents_outside (i : Z) (m : list vec) :
  m <> [] ->
  i < - Z.of_nat (length m) \/ Z.of_nat (length m) <= i ->
  get_similar_documents euclidean ltb i m = Raise IndexError.
Proof.
  intros Hm Hi. destruct m as [ | c m]; [ contradiction | ].
  unfold get_similar_documents, range. cbn [length seq map for_each].
  unfold similarity_step at 1. cbn [Z.of_nat].
  destruct (Z.eqb_spec 0 i) as [E | _].
  - subst i. simpl length in Hi. lia.
  - cbn [negb]. unfold column. rewrite (getitem_outside (c :: m) i Hi).
    reflexivity.
Qed.

End RankerEdges.

Section RealDistance.
Import DocumentEmbeddings.

Lemma sum_sq_diff_sym (u v : list R) : sum_sq_diff u v = sum_sq_diff v u.
Proof.
  unfold sum_sq_diff. revert v.
  induction u as [ | a u IH]; intros [ | b v]; simpl; try reflexivity.
  rewrite IH. ring.
Qed.

Lemma euclidean_sym (u v : list R) : euclidean u v = euclidean v u.
Proof. unfold euclidean. now rewrite sum_sq_diff_sym. Qed.

Lemma sum_sq_diff_self (u : list R) : sum_sq_diff u u = 0%R.
Proof.
  unfold sum_sq_diff. induction u as [ | a u IH]; simpl; [ reflexivity | ].
  rewrite IH. ring.
Qed.

Lemma euclidean_self (u : list R) : euclidean u u = 0%R.
Proof. unfold euclidean. rewrite sum_sq_diff_self. apply sqrt_0. Qed.

(** The members of a ranking from a valid index. *)
Lemma ranking_members (m : list (list R)) (i : Z) :
  0 <= i < Z.of_nat (length m) ->
  exists l : list (Z * R),
    get_similar_documents euclidean Rltb i m = Ok l
    /\ forall j d,
         In (j, d) l <->
         (0 <= j < Z.of_nat (length m) /\ j <> i)
         /\ d = euclidean (nth (Z.to_nat i) m []) (nth (Z.to_nat j) m []).
Proof.
  intros Hi.
  set (pairs := distances_from euclidean (nth (Z.to_nat i) m []) m (others i m)).
  exists (sort_by snd Rltb pairs).
  split; [ apply get_similar_documents_valid; exact Hi | ].
  intros j d.
  assert (Hperm : Permutation (sort_by snd Rltb pairs) pairs)
    by apply sort_by_perm.
  split.
  - intros Hin. apply (Permutation_in _ Hperm) in Hin.
    unfold pairs, distances_from in Hin. apply in_map_iff in Hin.
    destruct Hin as [n [E Hn]]. apply others_In in Hn. injection E as <- <-.
    split; [ exact Hn | ]. f_equal. apply nth_indep. lia.
  - intros [Hj ->]. apply (Permutation_in _ (Permutation_sym Hperm)).
    unfold pairs, distances_from. apply in_map_iff. exists j.
    split; [ | apply others_In; exact Hj ].
    f_equal. f_equal. apply nth_indep. lia.
Qed.

End RealDistance.

(** Property X16.  On a matrix with at least one column, a query index that
    numpy rejects (below [-column_count] or from [column_count] on) makes
    the ranker raise [IndexError]. *)
Theorem ranker_index_out_of_range (m : list (list R)) (i : Z) :
  m <> [] ->
  i < - Z.of_nat (length m) \/ Z.of_nat (length m) <= i ->
  DocumentEmbeddings.get_similar_documents
    DocumentEmbeddings.euclidean DocumentEmbeddings.Rltb i m = Raise IndexError.
Proof. apply get_similar_documents_outside. Qed.

Lemma ranker_index_out_of_range_witness :
  DocumentEmbeddings.get_similar_documents
    DocumentEmbeddings.euclidean DocumentEmbeddings.Rltb
    3 DocumentEmbeddings.example_embeddings = Raise IndexError.
Proof.
  apply (ranker_index_out_of_range DocumentEmbeddings.example_embeddings 3).
  - discriminate.
  - right. simpl. lia.
Defined.

(** Property X17.  A negative query index that numpy accepts
    ([-column_count <= i < 0]) is compared with the non-negative loop index
    only, so the query column is not left out: the ranking has one pair for
    every column, and the query column itself, [column_count + i], is listed
    at distance 0. *)
Theorem ranker_negative_index_lists_query (m : list (list R)) (i : Z) :
  - Z.of_nat (length m) <= i < 0 ->
  exists l : list (Z * R),
    DocumentEmbeddings.get_similar_documents
      DocumentEmbeddings.euclidean DocumentEmbeddings.Rltb i m = Ok l
    /\ length l = length m
    /\ Permutation (map fst l) (range (length m))
    /\ In (Z.of_nat (length m) + i, 0%R) l.
Proof.
  intros Hi.
  set (q := Z.to_nat (Z.of_nat (length m) + i)).
  set (pairs := DocumentEmbeddings.distances_from DocumentEmbeddings.euclidean
                  (nth q m []) m (range (length m))).
  assert (Hperm : Permutation (sort_by snd DocumentEmbeddings.Rltb pairs) pairs)
    by apply sort_by_perm.
  exists (sort_by snd DocumentEmbeddings.Rltb pairs).
  split; [ apply get_similar_documents_negative; exact Hi | ].
  split.
  { rewrite (Permutation_length Hperm). unfold pairs,
      DocumentEmbeddings.distances_from, range.
    rewrite !length_map. apply length_seq. }
  split.
  { eapply Permutation_trans; [ apply Permutation_map; exact Hperm | ].
    unfold pairs. rewrite distances_from_fst. apply Permutation_refl. }
  apply (Permutation_in _ (Permutation_sym Hperm)).
  unfold pairs, DocumentEmbeddings.distances_from. apply in_map_iff.
  exists (Z.of_nat (length m) + i). split.
  - f_equal. fold q.
    rewrite (nth_indep m (nth q m []) []) by (unfold q; lia).
    apply euclidean_self.
  - apply range_In. lia.
Qed.

Lemma ranker_negative_index_lists_query_witness :
  exists l : list (Z * R),
    DocumentEmbeddings.get_similar_documents
      DocumentEmbeddings.euclidean DocumentEmbeddings.Rltb
      (-1) DocumentEmbeddings.example_embeddings = Ok l
    /\ length l = length DocumentEmbeddings.example_embeddings
    /\ Permutation (map fst l)
         (range (length DocumentEmbeddings.example_embeddings))
    /\ In (Z.of_nat (length DocumentEmbeddings.example_embeddings) + -1, 0%R) l.
Proof.
  apply (ranker_negative_index_lists_query DocumentEmbeddings.example_embeddings (-1)).
  simpl. lia.
Defined.

(** Property X18.  Rankings agree on distances: for two different valid
    indices [i] and [j], the distance listed for [j] in the ranking from [i]
    is the distance listed for [i] in the ranking from [j]. *)
Theorem rankings_agree_on_distance (m : list (list R)) (i j : Z) :
  0 <= i < Z.of_nat (length m) ->
  0 <= j < Z.of_nat (length m) ->
  i <> j ->
  exists (li lj : list (Z * R)) (d : R),
    DocumentEmbeddings.get_similar_documents
      DocumentEmbeddings.euclidean DocumentEmbeddings.Rltb i m = Ok li
    /\ DocumentEmbeddings.get_similar_documents
         DocumentEmbeddings.euclidean DocumentEmbeddings.Rltb j m = Ok lj
    /\ In (j, d) li
    /\ In (i, d) lj
    /\ (forall d', In (j, d') li -> d' = d)
    /\ (forall d', In (i, d') lj -> d' = d).
Proof.
  intros Hi Hj Hne.
  destruct (ranking_members m i Hi) as [li [Hri Hmi]].
  destruct (ranking_members m j Hj) as [lj [Hrj Hmj]].
  exists li, lj,
    (DocumentEmbeddings.euclidean (nth (Z.to_nat i) m []) (nth (Z.to_nat j) m [])).
  split; [ exact Hri | ]. split; [ exact Hrj | ].
  split; [ apply Hmi; split; [ split; [ exact Hj | congruence ] | reflexivity ] | ].
  split.
  { apply Hmj. split; [ split; [ exact Hi | exact Hne ] | apply euclidean_sym ]. }
  split.
  - intros d' Hin. apply Hmi in Hin. destruct Hin as [_ ->]. reflexivity.
  - intros d' Hin. apply Hmj in Hin. destruct Hin as [_ ->]. apply euclidean_sym.
Qed.

Lemma rankings_agree_on_distance_witness :
  exists (li lj : list (Z * R)) (d : R),
    DocumentEmbeddings.get_similar_documents
      DocumentEmbeddings.euclidean DocumentEmbeddings.Rltb
      0 DocumentEmbeddings.example_embeddings = Ok li
    /\ DocumentEmbeddings.get_similar_documents
         DocumentEmbeddings.euclidean DocumentEmbeddings.Rltb
         2 DocumentEmbeddings.example_embeddings = Ok lj
    /\ In (2, d) li
    /\ In (0, d) lj
    /\ (forall d', In (2, d') li -> d' = d)
    /\ (forall d', In (0, d') lj -> d' = d).
Proof.
  apply (rankings_agree_on_distance DocumentEmbeddings.example_embeddings 0 2).
  - simpl. lia.
  - simpl. lia.
  - discriminate.
Defined.

(* ===================================================================== *)
(** * Facts about rounding to doubles *)
(* ===================================================================== *)

Section RoundingFacts.
Import Doubles.

Lemma pow2_pos (e : Z) : (0 < pow2 e)%Q.
Proof. unfold pow2. apply Qpower_0_lt. reflexivity. Qed.

Lemma pow2_add (a b : Z) : (pow2 (a + b) == pow2 a * pow2 b)%Q.
Proof. unfold pow2. apply Qpower_plus. discriminate. Qed.

Lemma pow2_int (e : Z) : 0 <= e -> (pow2 e == inject_Z (2 ^ e))%Q.
Proof. intros He. unfold pow2. symmetry. apply (Zpower_Qpower 2 e He). Qed.

Lemma pow2_le (a b : Z) : a <= b -> (pow2 a <= pow2 b)%Q.
Proof. intros Hab. unfold pow2. apply Qpower_le_compat_l; [ exact Hab | discriminate ]. Qed.

Lemma pow2_lt_inv (a b : Z) : (pow2 a < pow2 b)%Q -> a < b.
Proof. intros H. apply (Qpower_lt_compat_l_inv 2); [ exact H | reflexivity ]. Qed.

(** Rounding to the nearest integer does not cross an integer. *)
Lemma round_half_even_le (x : Q) (k : Z) :
  (x <= inject_Z k)%Q -> round_half_even x <= k.
Proof.
  intros Hx. unfold round_half_even.
  pose proof (Qfloor_le x) as Hf.
  assert (Hfk : Qfloor x <= k).
  { rewrite Zle_Qle. eapply Qle_trans; eassumption. }
  assert (Hup : (0 < x - inject_Z (Qfloor x))%Q -> Qfloor x + 1 <= k).
  { intros Hd. assert (H : Qfloor x < k); [ | lia ].
    rewrite Zlt_Qlt. eapply Qlt_le_trans; [ | exact Hx ]. Lqa.lra. }
  destruct (Qcompare_spec (x - inject_Z (Qfloor x)) (1 # 2)) as [E | E | E].
  - destruct (Z.even (Qfloor x)); [ exact Hfk | ]. apply Hup. Lqa.lra.
  - exact Hfk.
  - apply Hup. Lqa.lra.
Qed.

Lemma round_half_even_ge (x : Q) (k : Z) :
  (inject_Z k <= x)%Q -> k <= round_half_even x.
Proof.
  intros Hx. unfold round_half_even.
  pose proof (Qfloor_resp_le _ _ Hx) as Hf. rewrite Qfloor_Z in Hf.
  destruct (Qcompare (x - inject_Z (Qfloor x)) (1 # 2));
    [ destruct (Z.even (Qfloor x)) | | ]; lia.
Qed.

(** [binade x] is not above the true exponent of [x]. *)
Lemma binade_lower (x : Q) : (0 < x)%Q -> (pow2 (binade x) <= x)%Q.
Proof.
  intros Hx. unfold binade.
  set (e0 := Z.log2 (Qnum x) - Z.log2 (Z.pos (Qden x))).
  destruct (Qle_bool (pow2 e0) x) eqn:Htest.
  - apply Qle_bool_iff. exact Htest.
  - destruct x as [n d]. cbn [Qnum Qden] in e0.
    assert (Hn : 0 < n) by (unfold Qlt in Hx; simpl in Hx; lia).
    pose proof (Z.log2_spec n Hn) as [Hln _].
    pose proof (Z.log2_spec (Z.pos d) ltac:(lia)) as [_ Hld].
    rewrite (Qmake_Qdiv n d).
    apply Qle_shift_div_l; [ change 0%Q with (inject_Z 0); rewrite <- Zlt_Qlt; lia | ].
    apply Qle_trans with (pow2 (e0 - 1) * pow2 (Z.log2 (Z.pos d) + 1))%Q.
    + apply Qmult_le_l; [ apply pow2_pos | ].
      rewrite pow2_int by (pose proof (Z.log2_nonneg (Z.pos d)); lia).
      rewrite <- Zle_Qle. unfold Z.succ in Hld. lia.
    + rewrite <- pow2_add.
      replace (e0 - 1 + (Z.log2 (Z.pos d) + 1)) with (Z.log2 n) by (unfold e0; lia).
      rewrite pow2_int by apply Z.log2_nonneg.
      rewrite <- Zle_Qle. exact Hln.
Qed.

(** The spacing around [x] is at most [2^t] when [x] is below [2^(t+53)]. *)
Lemma spacing_le (x : Q) (t : Z) :
  (0 < x)%Q -> (x < pow2 (t + 53))%Q -> -1074 <= t -> spacing x <= t.
Proof.
  intros Hx Hlt Ht. unfold spacing.
  assert (Hb : binade x < t + 53).
  { apply pow2_lt_inv. eapply Qle_lt_trans; [ apply binade_lower; exact Hx | exact Hlt ]. }
  lia.
Qed.

(** A multiple of [2^t] is a multiple of every finer [2^s]. *)
Lemma on_finer_grid (M s t : Z) :
  s <= t ->
  (inject_Z M * pow2 t == inject_Z (M * 2 ^ (t - s)) * pow2 s)%Q.
Proof.
  intros Hst. rewrite inject_Z_mult, <- pow2_int by lia.
  replace t with ((t - s) + s) at 1 by lia. rewrite pow2_add. ring.
Qed.

(** Rounding does not cross a number of the grid it rounds to. *)
Lemma round_pos_le (x a : Q) (k : Z) :
  (x <= a)%Q -> (a == inject_Z k * pow2 (spacing x))%Q -> (round_pos x <= a)%Q.
Proof.
  intros Hxa Ha. unfold round_pos. rewrite Ha.
  apply Qmult_le_compat_r; [ | apply Qlt_le_weak, pow2_pos ].
  rewrite <- Zle_Qle. apply round_half_even_le.
  apply Qle_shift_div_r; [ apply pow2_pos | ]. rewrite <- Ha. exact Hxa.
Qed.

Lemma round_pos_ge (x a : Q) (k : Z) :
  (a <= x)%Q -> (a == inject_Z k * pow2 (spacing x))%Q -> (a <= round_pos x)%Q.
Proof.
  intros Hxa Ha. unfold round_pos. rewrite Ha.
  apply Qmult_le_compat_r; [ | apply Qlt_le_weak, pow2_pos ].
  rewrite <- Zle_Qle. apply round_half_even_ge.
  apply Qle_shift_div_l; [ apply pow2_pos | ]. rewrite <- Ha. exact Hxa.
Qed.

(** A number between 0 and a double [M * 2^t] (with [M < 2^53]) rounds to a
    finite double in the same range. *)
Lemma round64_between (x : Q) (M t : Z) :
  (0 <= x)%Q -> (x <= inject_Z M * pow2 t)%Q ->
  M < 2 ^ 53 -> -1074 <= t -> t + 53 <= 1024 ->
  exists r : Q,
    round64 x = Finite r /\ (0 <= r)%Q /\ (r <= inject_Z M * pow2 t)%Q.
Proof.
  intros H0 Hx HM Ht Hmax.
  assert (Htop : (inject_Z M * pow2 t < pow2 (t + 53))%Q).
  { rewrite (Z.add_comm t 53), pow2_add.
    apply Qmult_lt_compat_r; [ apply pow2_pos | ].
    rewrite pow2_int by lia. rewrite <- Zlt_Qlt. exact HM. }
  unfold round64. destruct (Qcompare_spec x 0) as [E | E | E].
  - exists 0%Q. split; [ reflexivity | ]. split; [ apply Qle_refl | ].
    rewrite <- E. exact Hx.
  - exfalso. apply (Qlt_irrefl 0). eapply Qle_lt_trans; eassumption.
  - assert (Hs : spacing x <= t).
    { apply spacing_le; [ exact E | | exact Ht ].
      eapply Qle_lt_trans; [ exact Hx | exact Htop ]. }
    assert (Hle : (round_pos x <= inject_Z M * pow2 t)%Q).
    { apply (round_pos_le x _ (M * 2 ^ (t - spacing x))); [ exact Hx | ].
      apply on_finer_grid. exact Hs. }
    assert (Hge : (0 <= round_pos x)%Q).
    { apply (round_pos_ge x 0 0); [ apply Qlt_le_weak; exact E | ]. ring. }
    assert (Hfin : Qle_bool (pow2 1024) (round_pos x) = false).
    { destruct (Qle_bool (pow2 1024) (round_pos x)) eqn:Hb; [ | reflexivity ].
      apply Qle_bool_iff in Hb. exfalso. apply (Qlt_irrefl (pow2 1024)).
      eapply Qle_lt_trans; [ exact Hb | ].
      eapply Qle_lt_trans; [ exact Hle | ].
      eapply Qlt_le_trans; [ exact Htop | apply pow2_le; exact Hmax ]. }
    cbv zeta. rewrite Hfin. exists (Qred (round_pos x)).
    split; [ reflexivity | ]. rewrite Qred_correct. split; assumption.
Qed.

End RoundingFacts.

(* ===================================================================== *)
(** * The image generation in doubles *)
(* ===================================================================== *)

Section DoubleImageFacts.
Import Doubles AuthorClusteringDoubles.

Lemma double_zeros_has_shape (a b c : nat) : has_shape a b c (zeros a b c).
Proof.
  unfold has_shape, zeros. split; [ apply repeat_length | ].
  apply Forall_forall. intros plane Hp. apply repeat_spec in Hp. subst plane.
  split; [ apply repeat_length | ].
  apply Forall_forall. intros px Hpx. apply repeat_spec in Hpx. subst px.
  apply repeat_length.
Qed.

Lemma double_zeros_pixel (x y c : nat) : pixel (zeros 256 256 3) x y c = Finite 0.
Proof.
  unfold pixel, zeros.
  destruct (Nat.lt_ge_cases x 256) as [Hx | Hx].
  - rewrite (nth_indep _ [] (repeat (repeat (Finite 0) 3) 256))
      by (rewrite repeat_length; exact Hx).
    rewrite nth_repeat_default.
    destruct (Nat.lt_ge_cases y 256) as [Hy | Hy].
    + rewrite (nth_indep _ [] (repeat (Finite 0) 3)) by (rewrite repeat_length; exact Hy).
      rewrite nth_repeat_default. apply nth_repeat_default.
    + rewrite (nth_overflow (repeat (repeat (Finite 0) 3) 256))
        by (rewrite repeat_length; exact Hy).
      now destruct c.
  - rewrite (nth_overflow (repeat (repeat (repeat (Finite 0) 3) 256) 256))
      by (rewrite repeat_length; exact Hx).
    destruct y; now destruct c.
Qed.

(** [image[x, y, c] += r] on a 256 x 256 x 3 image with valid indices: the
    addressed cell becomes the rounded sum, every other cell and the shape
    stay. *)
Lemma double_image_add_spec (img : image) (x y c : Z) (xi yi ci : nat) (r : double) :
  has_shape 256 256 3 img ->
  norm_index 256 x = Some xi ->
  norm_index 256 y = Some yi ->
  norm_index 3 c = Some ci ->
  exists img',
    image_add x y c r img = Ok img'
    /\ has_shape 256 256 3 img'
    /\ pixel img' xi yi ci = fadd (pixel img xi yi ci) r
    /\ (forall x' y' c', (x', y', c') <> (xi, yi, ci) ->
          pixel img' x' y' c' = pixel img x' y' c')
    /\ (image_total img' ==
        image_total img
        + (value (fadd (pixel img xi yi ci) r) - value (pixel img xi yi ci)))%Q.
Proof.
  intros [Hlen Hall] Hx Hy Hc.
  pose proof (norm_index_lt _ _ _ Hx) as Hxi.
  pose proof (norm_index_lt _ _ _ Hy) as Hyi.
  pose proof (norm_index_lt _ _ _ Hc) as Hci.
  destruct (nth_error img xi) as [plane | ] eqn:Eplane;
    [ | apply nth_error_None in Eplane; lia ].
  assert (Hplane : length plane = 256%nat /\
                   Forall (fun px : list double => length px = 3%nat) plane).
  { rewrite Forall_forall in Hall. apply Hall. eapply nth_error_In; eassumption. }
  destruct Hplane as [Hplen Hpall].
  destruct (nth_error plane yi) as [px | ] eqn:Epx;
    [ | apply nth_error_None in Epx; lia ].
  assert (Hpx : length px = 3%nat).
  { rewrite Forall_forall in Hpall. apply Hpall. eapply nth_error_In; eassumption. }
  destruct (nth_error px ci) as [p | ] eqn:Ep;
    [ | apply nth_error_None in Ep; lia ].
  destruct (alter_spec (fun p => Ok (fadd p r)) px c ci p (fadd p r))
    as [px' [H1 [H1len [H1i [H1j [_ H1w]]]]]];
    [ rewrite Hpx; exact Hc | exact Ep | reflexivity | ].
  destruct (alter_spec (alter (fun p => Ok (fadd p r)) c) plane y yi px px')
    as [plane' [H2 [H2len [H2i [H2j [H2P H2w]]]]]];
    [ rewrite Hplen; exact Hy | exact Epx | exact H1 | ].
  destruct (alter_spec (alter (alter (fun p => Ok (fadd p r)) c) y) img x xi plane plane')
    as [img' [H3 [H3len [H3i [H3j [H3P H3w]]]]]];
    [ rewrite Hlen; exact Hx | exact Eplane | exact H2 | ].
  assert (Hcell : pixel img xi yi ci = p).
  { unfold pixel.
    rewrite (nth_of_nth_error img xi), Eplane, (nth_of_nth_error plane yi), Epx,
      (nth_of_nth_error px ci), Ep. reflexivity. }
  exists img'. split; [ exact H3 | ]. split; [ | split; [ | split ] ].
  - split; [ congruence | ].
    apply H3P; [ exact Hall | ]. split; [ congruence | ].
    apply H2P; [ exact Hpall | congruence ].
  - rewrite Hcell. unfold pixel.
    rewrite (nth_of_nth_error img' xi), H3i, (nth_of_nth_error plane' yi), H2i,
      (nth_of_nth_error px' ci), H1i. reflexivity.
  - intros x' y' c' Hne. unfold pixel.
    destruct (Nat.eq_dec x' xi) as [-> | Hx'].
    + rewrite (nth_of_nth_error img' xi), (nth_of_nth_error img xi), H3i, Eplane.
      destruct (Nat.eq_dec y' yi) as [-> | Hy'].
      * rewrite (nth_of_nth_error plane' yi), (nth_of_nth_error plane yi), H2i, Epx.
        assert (Hc' : c' <> ci) by congruence.
        rewrite (nth_of_nth_error px' c'), (nth_of_nth_error px c'), (H1j c' Hc').
        reflexivity.
      * rewrite (nth_of_nth_error plane' y'), (nth_of_nth_error plane y'), (H2j y' Hy').
        reflexivity.
    + rewrite (nth_of_nth_error img' x'), (nth_of_nth_error img x'), (H3j x' Hx').
      reflexivity.
  - rewrite Hcell. unfold image_total.
    rewrite (H3w (fun plane =>
                    AuthorClustering.sumQ
                      (map (fun px => AuthorClustering.sumQ (map value px)) plane))).
    rewrite (H2w (fun px => AuthorClustering.sumQ (map value px))).
    rewrite (H1w value). ring.
Qed.

Lemma double_target_inv (index1 index2 : Z) (s : list double) (x y : nat) :
  target index1 index2 s = Some (x, y) ->
  exists v1 v2 k1 k2,
    getitem s index1 = Ok v1 /\ getitem s index2 = Ok v2 /\
    pixel_index v1 = Ok k1 /\ pixel_index v2 = Ok k2 /\
    norm_index 256 k1 = Some x /\ norm_index 256 k2 = Some y.
Proof.
  unfold target.
  destruct (getitem s index1) as [v1 | ]; [ | discriminate ].
  destruct (getitem s index2) as [v2 | ]; [ | discriminate ].
  destruct (pixel_index v1) as [k1 | ] eqn:K1; [ | discriminate ].
  destruct (pixel_index v2) as [k2 | ] eqn:K2; [ | discriminate ].
  destruct (norm_index 256 k1) as [x' | ] eqn:Ex; [ | discriminate ].
  destruct (norm_index 256 k2) as [y' | ] eqn:Ey; [ | discriminate ].
  intros E. injection E as <- <-. exists v1, v2, k1, k2. repeat split; try reflexivity; assumption.
Qed.

(** One point adds [n_ratio] to one cell of its channel, and to nothing
    else. *)
Lemma double_accumulate_spec (channel : Z) (ci : nat) (n_ratio : double)
  (index1 index2 : Z) (s : list double) (img : image) (x y : nat) :
  has_shape 256 256 3 img ->
  norm_index 3 channel = Some ci ->
  target index1 index2 s = Some (x, y) ->
  exists img',
    accumulate channel n_ratio index1 index2 s img = Ok img'
    /\ has_shape 256 256 3 img'
    /\ pixel img' x y ci = fadd (pixel img x y ci) n_ratio
    /\ (forall x' y' c', (x', y', c') <> (x, y, ci) ->
          pixel img' x' y' c' = pixel img x' y' c')
    /\ (image_total img' ==
        image_total img
        + (value (fadd (pixel img x y ci) n_ratio) - value (pixel img x y ci)))%Q.
Proof.
  intros Hshape Hc Ht.
  destruct (double_target_inv _ _ _ _ _ Ht)
    as [v1 [v2 [k1 [k2 [H1 [H2 [Hk1 [Hk2 [Hx Hy]]]]]]]]].
  unfold accumulate. rewrite H1. cbn [Py.bind]. rewrite H2. cbn [Py.bind].
  rewrite Hk1. cbn [Py.bind]. rewrite Hk2. cbn [Py.bind].
  apply double_image_add_spec; assumption.
Qed.

Lemma getitem_raises_IndexError {A : Type} (l : list A) (k : Z) (e : error) :
  getitem l k = Raise e -> e = IndexError.
Proof.
  unfold getitem. destruct (norm_index (length l) k) as [i | ].
  - destruct (nth_error l i); [ discriminate | ]. intros E. now injection E.
  - intros E. now injection E.
Qed.

Lemma int_raises (v : double) (e : error) :
  int v = Raise e -> e = OverflowError \/ e = ValueError.
Proof.
  destruct v; simpl; intros E; try discriminate E; injection E as <-; auto.
Qed.

(** A point without a target stops the accumulation: a coordinate is
    missing or a pixel index is outside the image ([IndexError]), or a
    coordinate is infinite ([OverflowError]) or not a number
    ([ValueError]). *)
Lemma double_accumulate_raises (channel : Z) (n_ratio : double) (index1 index2 : Z)
  (s : list double) (img : image) :
  has_shape 256 256 3 img ->
  target index1 index2 s = None ->
  exists e,
    accumulate channel n_ratio index1 index2 s img = Raise e
    /\ (e = IndexError \/ e = OverflowError \/ e = ValueError).
Proof.
  intros [Hlen Hall] Ht. unfold accumulate, target in *.
  destruct (getitem s index1) as [v1 | e1] eqn:E1.
  2:{ exists e1. split; [ reflexivity | ]. left.
      exact (getitem_raises_IndexError _ _ _ E1). }
  destruct (getitem s index2) as [v2 | e2] eqn:E2.
  2:{ exists e2. split; [ reflexivity | ]. left.
      exact (getitem_raises_IndexError _ _ _ E2). }
  cbn [Py.bind].
  destruct (pixel_index v1) as [k1 | e1] eqn:K1.
  2:{ exists e1. split; [ reflexivity | ]. right.
      exact (int_raises _ _ K1). }
  cbn [Py.bind].
  destruct (pixel_index v2) as [k2 | e2] eqn:K2.
  2:{ exists e2. split; [ reflexivity | ]. right.
      exact (int_raises _ _ K2). }
  cbn [Py.bind]. exists IndexError. split; [ | left; reflexivity ].
  unfold image_add.
  destruct (norm_index 256 k1) as [x | ] eqn:Ex.
  - destruct (norm_index 256 k2) as [y | ] eqn:Ey; [ discriminate | ].
    unfold alter at 1. rewrite Hlen, Ex.
    pose proof (norm_index_lt _ _ _ Ex) as Hx.
    destruct (nth_error img x) as [plane | ] eqn:Eplane;
      [ | apply nth_error_None in Eplane; lia ].
    assert (Hplane : length plane = 256%nat).
    { rewrite Forall_forall in Hall. apply (Hall plane).
      eapply nth_error_In; eassumption. }
    clear Hall Hlen Ht Ex. revert x Hx Eplane.
    induction img as [ | a img IH]; intros x Hx Eplane.
    + destruct x; discriminate Eplane.
    + destruct x as [ | x]; simpl in Eplane |- *.
      * injection Eplane as ->.
        rewrite (alter_raises_outside _ plane _) by (rewrite Hplane; exact Ey).
        reflexivity.
      * assert (Hx' : (x < 256)%nat) by lia.
        rewrite (IH x Hx' Eplane). reflexivity.
  - apply alter_raises_outside. rewrite Hlen. exact Ex.
Qed.

Lemma double_hits_cons (index1 index2 : Z) (x y : nat) (s : list double)
  (points : matrix) :
  hits index1 index2 x y (s :: points) =
  if lands_on index1 index2 x y s then S (hits index1 index2 x y points)
  else hits index1 index2 x y points.
Proof.
  unfold hits. simpl. destruct (lands_on index1 index2 x y s); reflexivity.
Qed.

(** One loop of [generate_pca_image] over points that all have a target:
    every cell of the loop's channel has received [+= n_ratio] once per
    point accumulated there, the other channels are as before. *)
Lemma double_loop_spec (channel : Z) (ci : nat) (n_ratio : double)
  (index1 index2 : Z) (points : matrix) :
  norm_index 3 channel = Some ci ->
  Forall (fun s => target index1 index2 s <> None) points ->
  forall img : image,
    has_shape 256 256 3 img ->
    exists img',
      for_each (accumulate channel n_ratio index1 index2) points img = Ok img'
      /\ has_shape 256 256 3 img'
      /\ (forall x y,
            pixel img' x y ci =
            add_times (hits index1 index2 x y points) n_ratio (pixel img x y ci))
      /\ (forall x y c, c <> ci -> pixel img' x y c = pixel img x y c).
Proof.
  intros Hc. induction points as [ | s points IH]; intros Hin img Hshape.
  - exists img. split; [ reflexivity | ]. split; [ exact Hshape | ].
    split; [ reflexivity | reflexivity ].
  - inversion Hin as [ | s' points' Hs Hin']; subst.
    destruct (target index1 index2 s) as [[xs ys] | ] eqn:Ht; [ | contradiction ].
    destruct (double_accumulate_spec channel ci n_ratio index1 index2 s img xs ys
                Hshape Hc Ht)
      as [img1 [Hacc [Hshape1 [Hhit [Hrest _]]]]].
    destruct (IH Hin' img1 Hshape1) as [img' [Hloop [Hshape' [Hpix Hother]]]].
    exists img'. split; [ | split; [ exact Hshape' | split ] ].
    + simpl. rewrite Hacc. exact Hloop.
    + intros x y. rewrite Hpix, double_hits_cons.
      destruct (lands_on index1 index2 x y s) eqn:El.
      * unfold lands_on in El. rewrite Ht in El.
        apply andb_true_iff in El. destruct El as [Ex Ey].
        apply Nat.eqb_eq in Ex. apply Nat.eqb_eq in Ey. subst xs ys.
        rewrite Hhit. reflexivity.
      * rewrite (Hrest x y ci); [ reflexivity | ].
        intros E. injection E as -> ->.
        unfold lands_on in El. rewrite Ht, !Nat.eqb_refl in El. discriminate El.
    + intros x y c Hne. rewrite (Hother x y c Hne). apply Hrest. congruence.
Qed.

(** [256.0 / n_samples] for a number of points below [2^53]: the double
    nearest to the quotient. *)
Lemma n_ratio_spec (n : nat) :
  (0 < n)%nat -> Z.of_nat n < 2 ^ 53 ->
  div_int (Finite 256) (Z.of_nat n) = Ok (round64 (256 / inject_Z (Z.of_nat n))).
Proof.
  intros Hn Hbig. unfold div_int, float_of_int.
  destruct (Z.eqb_spec (Z.of_nat n) 0) as [E | _]; [ lia | ].
  destruct (Z.ltb_spec (Z.abs (Z.of_nat n)) (2 ^ 53)) as [_ | H]; [ reflexivity | lia ].
Qed.

(** The whole of [generate_pca_image] on points that all have a target. *)
Lemma double_generate_pca_image_spec (states1 states2 : matrix) (index1 index2 : Z) :
  (0 < length states1 + length states2)%nat ->
  Z.of_nat (length states1 + length states2) < 2 ^ 53 ->
  Forall (fun s => target index1 index2 s <> None) states1 ->
  Forall (fun s => target index1 index2 s <> None) states2 ->
  exists img,
    generate_pca_image states1 states2 index1 index2 = Ok img
    /\ has_shape 256 256 3 img
    /\ (forall x y c,
          pixel img x y c =
          add_times (hits index1 index2 x y (drawn_in c states1 states2))
            (round64 (256 / inject_Z (Z.of_nat (length states1 + length states2))))
            (Finite 0)).
Proof.
  intros Hn Hbig H1 H2. unfold generate_pca_image.
  rewrite (n_ratio_spec _ Hn Hbig). cbn [Py.bind].
  set (n_ratio := round64 (256 / inject_Z (Z.of_nat (length states1 + length states2)))).
  destruct (double_loop_spec 1 1 n_ratio index1 index2 states1 eq_refl H1
              (zeros 256 256 3) (double_zeros_has_shape 256 256 3))
    as [img1 [Hl1 [Hs1 [Hp1 Ho1]]]].
  destruct (double_loop_spec 2 2 n_ratio index1 index2 states2 eq_refl H2 img1 Hs1)
    as [img2 [Hl2 [Hs2 [Hp2 Ho2]]]].
  exists img2. rewrite Hl1. cbn [Py.bind]. rewrite Hl2. cbn [Py.bind].
  split; [ reflexivity | ]. split; [ exact Hs2 | ].
  intros x y c.
  destruct (Nat.eq_dec c 2) as [-> | Hc2].
  - rewrite Hp2, (Ho1 x y 2%nat) by discriminate. rewrite double_zeros_pixel.
    reflexivity.
  - rewrite (Ho2 x y c Hc2).
    destruct (Nat.eq_dec c 1) as [-> | Hc1].
    + rewrite Hp1, double_zeros_pixel. reflexivity.
    + rewrite (Ho1 x y c Hc1), double_zeros_pixel.
      replace (drawn_in c states1 states2) with (@nil (list double));
        [ reflexivity | ].
      destruct c as [ | [ | [ | c]]]; try reflexivity; contradiction.
Qed.

End DoubleImageFacts.

Section DoublePixelFacts.
Import Doubles AuthorClusteringDoubles.

(** [below_one + 1] is the double [(2^53 - 1) * 2^-52], and 128 times it is
    the double [(2^53 - 1) * 2^-45], the largest one below 256. *)
Lemma below_one_plus_one :
  (below_one + 1 == inject_Z (2 ^ 53 - 1) * pow2 (-52))%Q.
Proof. vm_compute. reflexivity. Qed.

Lemma largest_sum_scaled :
  (inject_Z (2 ^ 53 - 1) * pow2 (-52) * 128 == inject_Z (2 ^ 53 - 1) * pow2 (-45))%Q.
Proof. vm_compute. reflexivity. Qed.

Lemma largest_product_below_256 : (inject_Z (2 ^ 53 - 1) * pow2 (-45) < 256)%Q.
Proof. vm_compute. reflexivity. Qed.

(** For a coordinate in [[-1, below_one]] the product [(v+1)*128], as
    computed, is a finite double in [[0, 256)], and the pixel index is its
    floor. *)
Lemma double_pixel_index_bounds (q : Q) :
  (- (1) <= q)%Q -> (q <= below_one)%Q ->
  exists p : Q,
    fmul (fadd (Finite q) (Finite 1)) (Finite 128) = Finite p
    /\ pixel_index (Finite q) = Ok (Qfloor p)
    /\ 0 <= Qfloor p <= 255.
Proof.
  intros Hlo Hhi.
  destruct (round64_between (q + 1) (2 ^ 53 - 1) (-52)) as [r [Hr [Hr0 Hr1]]].
  - Lqa.lra.
  - rewrite <- below_one_plus_one. Lqa.lra.
  - vm_compute. reflexivity.
  - lia.
  - lia.
  - destruct (round64_between (r * 128) (2 ^ 53 - 1) (-45)) as [p [Hp [Hp0 Hp1]]].
    + Lqa.lra.
    + rewrite <- largest_sum_scaled.
      apply Qmult_le_compat_r; [ exact Hr1 | discriminate ].
    + vm_compute. reflexivity.
    + lia.
    + lia.
    + assert (Hprod : fmul (fadd (Finite q) (Finite 1)) (Finite 128) = Finite p).
      { cbn [fadd fmul]. rewrite Hr. cbn [fmul]. exact Hp. }
      exists p. split; [ exact Hprod | ]. split.
      * unfold pixel_index. rewrite Hprod. cbn [int]. f_equal.
        apply int_nonneg. apply Qnum_nonneg. exact Hp0.
      * split.
        -- change 0 with (Qfloor 0). apply Qfloor_resp_le. exact Hp0.
        -- assert (Hlt : Qfloor p < 256); [ | lia ].
           rewrite Zlt_Qlt. eapply Qle_lt_trans; [ apply Qfloor_le | ].
           eapply Qle_lt_trans; [ exact Hp1 | exact largest_product_below_256 ].
Qed.

Lemma within_spec (lo hi : Q) (v : double) :
  within lo hi v = true -> exists q, v = Finite q /\ (lo <= q)%Q /\ (q <= hi)%Q.
Proof.
  destruct v as [q | | ]; simpl; try discriminate.
  intros H. apply andb_true_iff in H. destruct H as [H1 H2].
  exists q. split; [ reflexivity | ]. split; apply Qle_bool_iff; assumption.
Qed.

(** A point in range has a target: the floors of the two computed
    products. *)
Lemma in_range_target (index1 index2 : Z) (s : list double) :
  in_range index1 index2 s = true ->
  exists q1 q2 p1 p2 : Q,
    getitem s index1 = Ok (Finite q1) /\ getitem s index2 = Ok (Finite q2)
    /\ fmul (fadd (Finite q1) (Finite 1)) (Finite 128) = Finite p1
    /\ fmul (fadd (Finite q2) (Finite 1)) (Finite 128) = Finite p2
    /\ 0 <= Qfloor p1 <= 255 /\ 0 <= Qfloor p2 <= 255
    /\ target index1 index2 s = Some (Z.to_nat (Qfloor p1), Z.to_nat (Qfloor p2)).
Proof.
  unfold in_range, target.
  destruct (getitem s index1) as [v1 | ] eqn:E1; [ | discriminate ].
  destruct (getitem s index2) as [v2 | ] eqn:E2; [ | discriminate ].
  intros H. apply andb_true_iff in H. destruct H as [H1 H2].
  destruct (within_spec _ _ _ H1) as [q1 [-> [A1 B1]]].
  destruct (within_spec _ _ _ H2) as [q2 [-> [A2 B2]]].
  destruct (double_pixel_index_bounds q1 A1 B1) as [p1 [P1 [K1 R1]]].
  destruct (double_pixel_index_bounds q2 A2 B2) as [p2 [P2 [K2 R2]]].
  exists q1, q2, p1, p2. rewrite K1, K2.
  rewrite !norm_index_nonneg by (simpl; lia).
  repeat split; try assumption; try reflexivity; lia.
Qed.

Lemma in_range_has_target (index1 index2 : Z) (points : matrix) :
  Forall (fun s => in_range index1 index2 s = true) points ->
  Forall (fun s => target index1 index2 s <> None) points.
Proof.
  intros H. eapply Forall_impl; [ | exact H ]. intros s Hs.
  destruct (in_range_target index1 index2 s Hs)
    as [q1 [q2 [p1 [p2 [_ [_ [_ [_ [_ [_ Ht]]]]]]]]]].
  rewrite Ht. discriminate.
Qed.

Lemma double_hits_single (index1 index2 : Z) (s : list double) (x y x' y' : nat) :
  target index1 index2 s = Some (x, y) ->
  hits index1 index2 x' y' [s] = if Nat.eqb x x' && Nat.eqb y y' then 1%nat else 0%nat.
Proof.
  intros Ht. rewrite double_hits_cons. unfold lands_on. rewrite Ht. reflexivity.
Qed.

(** With a single point in both sets together, the formula for the cells
    says: 256 at the point's cell, 0 everywhere else. *)
Lemma double_one_point_image (states1 states2 : matrix) (index1 index2 : Z)
  (s : list double) (c x y : nat) (img : image) :
  (length states1 + length states2 = 1)%nat ->
  In s (drawn_in c states1 states2) ->
  target index1 index2 s = Some (x, y) ->
  (forall x' y' c',
     pixel img x' y' c' =
     add_times (hits index1 index2 x' y' (drawn_in c' states1 states2))
       (round64 (256 / inject_Z (Z.of_nat (length states1 + length states2))))
       (Finite 0)) ->
  pixel img x y c = Finite 256 /\
  (forall x' y' c', (x', y', c') <> (x, y, c) -> pixel img x' y' c' = Finite 0).
Proof.
  intros Hlen Hin Ht Hpix. rewrite Hlen in Hpix.
  assert (Hcases : (c = 1%nat /\ states1 = [s] /\ states2 = []) \/
                   (c = 2%nat /\ states1 = [] /\ states2 = [s])).
  { destruct c as [ | [ | [ | c]]]; simpl in Hin; try contradiction.
    - left. destruct states1 as [ | a [ | b l1]]; simpl in Hlen, Hin;
        try contradiction; try lia.
      destruct states2; simpl in Hlen; [ | lia ].
      destruct Hin as [-> | []]. auto.
    - right. destruct states2 as [ | a [ | b l2]]; simpl in Hlen, Hin;
        try contradiction; try lia.
      destruct states1; simpl in Hlen; [ | lia ].
      destruct Hin as [-> | []]. auto. }
  split.
  - rewrite Hpix.
    destruct Hcases as [[-> [-> ->]] | [-> [-> ->]]]; cbn [drawn_in];
      rewrite (double_hits_single index1 index2 s x y x y Ht), !Nat.eqb_refl;
      vm_compute; reflexivity.
  - intros x' y' c' Hne. rewrite Hpix.
    assert (Hzero : hits index1 index2 x' y' (drawn_in c' states1 states2) = 0%nat).
    { destruct Hcases as [[-> [-> ->]] | [-> [-> ->]]].
      - destruct c' as [ | [ | [ | c']]]; cbn [drawn_in]; try reflexivity.
        rewrite (double_hits_single index1 index2 s x y x' y' Ht).
        destruct (Nat.eqb_spec x x') as [-> | _]; [ | reflexivity ].
        destruct (Nat.eqb_spec y y') as [-> | _]; [ | reflexivity ].
        contradiction Hne; reflexivity.
      - destruct c' as [ | [ | [ | c']]]; cbn [drawn_in]; try reflexivity.
        rewrite (double_hits_single index1 index2 s x y x' y' Ht).
        destruct (Nat.eqb_spec x x') as [-> | _]; [ | reflexivity ].
        destruct (Nat.eqb_spec y y') as [-> | _]; [ | reflexivity ].
        contradiction Hne; reflexivity. }
    rewrite Hzero. reflexivity.
Qed.

End DoublePixelFacts.

(** Claim C6 as stated fails at the upper end of the range [-1, 1].  The
    coordinate 1 has pixel index 256, not 255, and so has the largest double
    below 1 ([1 - 2^-53]: the sum [v + 1] is rounded to 2); 256 is no index
    of the image, and the point (1,1) makes [generate_pca_image] raise
    [IndexError]. *)
Lemma pixel_index_256_at_upper_end :
  AuthorClusteringDoubles.within (- (1)) 1 (Doubles.Finite 1) = true
  /\ AuthorClusteringDoubles.pixel_index (Doubles.Finite 1) = Ok 256
  /\ norm_index 256 256 = None
  /\ AuthorClusteringDoubles.generate_pca_image
       [[Doubles.Finite 1; Doubles.Finite 1]] [] 0 1 = Raise IndexError
  /\ (AuthorClusteringDoubles.just_below_one < 1)%Q
  /\ Doubles.round64 AuthorClusteringDoubles.just_below_one
     = Doubles.Finite AuthorClusteringDoubles.just_below_one
  /\ AuthorClusteringDoubles.pixel_index
       (Doubles.Finite AuthorClusteringDoubles.just_below_one) = Ok 256.
Proof. repeat split; vm_compute; reflexivity. Qed.

(** The index is the floor of the product as computed, not of the exact
    product: for the coordinate [-2^-60] the sum [v + 1] is rounded to 1, so
    the index is 128, while the exact product lies below 128. *)
Lemma pixel_index_rounds_before_floor :
  Doubles.round64 (- Doubles.pow2 (-60)) = Doubles.Finite (- Doubles.pow2 (-60))
  /\ Doubles.fadd (Doubles.Finite (- Doubles.pow2 (-60))) (Doubles.Finite 1)
     = Doubles.Finite 1
  /\ AuthorClusteringDoubles.pixel_index (Doubles.Finite (- Doubles.pow2 (-60)))
     = Ok 128
  /\ Qfloor ((- Doubles.pow2 (-60) + 1) * 128) = 127.
Proof. repeat split; vm_compute; reflexivity. Qed.

(** Claim C6, amended (for coordinates from -1 up to [1 - 2^-52], that is
    for every double of [-1, 1) but the largest, the pixel index is the
    floor of the product [(coord+1)*128] as computed in doubles and lies in
    [0, 255]; point sets with their two used coordinates in that range never
    index outside the image, so [generate_pca_image] returns an image of
    shape 256 x 256 x 3; the point (0,0) is accumulated at pixel (128,128),
    which then holds 256 while every other cell is 0). *)
Theorem pixel_index_in_image_below_one
  (states1 states2 : AuthorClusteringDoubles.matrix) (index1 index2 : Z) :
  (0 < length states1 + length states2)%nat ->
  Z.of_nat (length states1 + length states2) < 2 ^ 53 ->
  Forall (fun s => AuthorClusteringDoubles.in_range index1 index2 s = true) states1 ->
  Forall (fun s => AuthorClusteringDoubles.in_range index1 index2 s = true) states2 ->
  (forall s, In s (states1 ++ states2) ->
     exists q1 q2 p1 p2 : Q,
       getitem s index1 = Ok (Doubles.Finite q1)
       /\ getitem s index2 = Ok (Doubles.Finite q2)
       /\ Doubles.fmul (Doubles.fadd (Doubles.Finite q1) (Doubles.Finite 1))
            (Doubles.Finite 128) = Doubles.Finite p1
       /\ Doubles.fmul (Doubles.fadd (Doubles.Finite q2) (Doubles.Finite 1))
            (Doubles.Finite 128) = Doubles.Finite p2
       /\ AuthorClusteringDoubles.pixel_index (Doubles.Finite q1) = Ok (Qfloor p1)
       /\ AuthorClusteringDoubles.pixel_index (Doubles.Finite q2) = Ok (Qfloor p2)
       /\ 0 <= Qfloor p1 <= 255 /\ 0 <= Qfloor p2 <= 255
       /\ AuthorClusteringDoubles.target index1 index2 s
          = Some (Z.to_nat (Qfloor p1), Z.to_nat (Qfloor p2)))
  /\ (exists img,
        AuthorClusteringDoubles.generate_pca_image states1 states2 index1 index2
        = Ok img
        /\ AuthorClusteringDoubles.has_shape 256 256 3 img)
  /\ (AuthorClusteringDoubles.target 0 1 [Doubles.Finite 0; Doubles.Finite 0]
      = Some (128, 128)%nat
      /\ exists img,
           AuthorClusteringDoubles.generate_pca_image
             [[Doubles.Finite 0; Doubles.Finite 0]] [] 0 1 = Ok img
           /\ AuthorClusteringDoubles.pixel img 128 128 1 = Doubles.Finite 256
           /\ (forall x y c, (x, y, c) <> (128, 128, 1)%nat ->
                 AuthorClusteringDoubles.pixel img x y c = Doubles.Finite 0)).
Proof.
  intros Hn Hbig H1 H2. split; [ | split ].
  - intros s Hs.
    assert (Hr : AuthorClusteringDoubles.in_range index1 index2 s = true).
    { apply in_app_or in Hs. rewrite Forall_forall in H1, H2.
      destruct Hs as [Hs | Hs]; [ apply H1 | apply H2 ]; exact Hs. }
    destruct (in_range_target index1 index2 s Hr)
      as [q1 [q2 [p1 [p2 [E1 [E2 [P1 [P2 [R1 [R2 Ht]]]]]]]]]].
    exists q1, q2, p1, p2.
    assert (K : forall q p,
              Doubles.fmul (Doubles.fadd (Doubles.Finite q) (Doubles.Finite 1))
                (Doubles.Finite 128) = Doubles.Finite p ->
              0 <= Qfloor p ->
              AuthorClusteringDoubles.pixel_index (Doubles.Finite q) = Ok (Qfloor p)).
    { intros q p Hp Hf. unfold AuthorClusteringDoubles.pixel_index. rewrite Hp.
      cbn [Doubles.int]. f_equal. apply int_nonneg.
      destruct (Z.le_gt_cases 0 (Qnum p)) as [Hq | Hq]; [ exact Hq | ].
      exfalso. assert (Hneg : Qfloor p < 0); [ | lia ].
      destruct p as [a b]. simpl in *. apply Z.div_lt_upper_bound; lia. }
    repeat split; try assumption; try (apply K; [ assumption | lia ]); lia.
  - destruct (double_generate_pca_image_spec states1 states2 index1 index2 Hn Hbig
                (in_range_has_target _ _ _ H1) (in_range_has_target _ _ _ H2))
      as [img [Hrun [Hshape _]]].
    exists img. split; assumption.
  - split; [ vm_compute; reflexivity | ].
    destruct (double_generate_pca_image_spec
                [[Doubles.Finite 0; Doubles.Finite 0]] [] 0 1)
      as [img [Hrun [_ Hpix]]].
    + simpl. lia.
    + vm_compute. reflexivity.
    + constructor; [ vm_compute; discriminate | constructor ].
    + constructor.
    + exists img. split; [ exact Hrun | ].
      apply (double_one_point_image [[Doubles.Finite 0; Doubles.Finite 0]] [] 0 1
               [Doubles.Finite 0; Doubles.Finite 0] 1 128 128 img).
      * reflexivity.
      * left. reflexivity.
      * vm_compute. reflexivity.
      * exact Hpix.
Qed.

Lemma pixel_index_in_image_below_one_witness :
  exists img,
    AuthorClusteringDoubles.generate_pca_image
      AuthorClusteringDoubles.example_points1
      AuthorClusteringDoubles.example_points2 0 1 = Ok img
    /\ AuthorClusteringDoubles.has_shape 256 256 3 img.
Proof.
  apply (pixel_index_in_image_below_one
           AuthorClusteringDoubles.example_points1
           AuthorClusteringDoubles.example_points2 0 1).
  - simpl. lia.
  - vm_compute. reflexivity.
  - repeat constructor.
  - repeat constructor.
Defined.

(** Claim C7 as stated fails: the increment is the double nearest to
    [256 / total], and the rounded increments need not add up to 256.  With
    six points in the first set and one in the second, all at the origin
    (seven points, both sets non-empty and in range), the increment is not
    [256 / 7], the cell of channel 1 holds 219.4285714285714, the cell of
    channel 2 holds 36.57142857142857, and the cells sum to
    [256 - 3 * 2^-46] exactly and to 255.99999999999994 when added as
    doubles. *)
Lemma seven_points_miss_256 :
  Forall (fun s => AuthorClusteringDoubles.in_range 0 1 s = true)
    AuthorClusteringDoubles.six_points
  /\ Forall (fun s => AuthorClusteringDoubles.in_range 0 1 s = true)
       AuthorClusteringDoubles.one_point
  /\ Doubles.div_int (Doubles.Finite 256) 7
     = Ok (Doubles.Finite (2573485501354569 # 70368744177664))
  /\ ~ (2573485501354569 # 70368744177664 == 256 / 7)%Q
  /\ AuthorClusteringDoubles.generate_pca_image
       AuthorClusteringDoubles.six_points AuthorClusteringDoubles.one_point 0 1
     = Ok AuthorClusteringDoubles.seven_points_image
  /\ AuthorClusteringDoubles.pixel AuthorClusteringDoubles.seven_points_image 128 128 1
     = Doubles.Finite (3860228252031853 # 17592186044416)
  /\ AuthorClusteringDoubles.pixel AuthorClusteringDoubles.seven_points_image 128 128 2
     = Doubles.Finite (2573485501354569 # 70368744177664)
  /\ (AuthorClusteringDoubles.image_total AuthorClusteringDoubles.seven_points_image
      == 256 - 3 * Doubles.pow2 (-46))%Q
  /\ ~ (AuthorClusteringDoubles.image_total AuthorClusteringDoubles.seven_points_image
        == 256)%Q
  /\ Doubles.fadd
       (AuthorClusteringDoubles.pixel AuthorClusteringDoubles.seven_points_image
          128 128 1)
       (AuthorClusteringDoubles.pixel AuthorClusteringDoubles.seven_points_image
          128 128 2)
     = Doubles.Finite (256 - Doubles.pow2 (-44))
  /\ ~ (256 - Doubles.pow2 (-44) == 256)%Q.
Proof.
  split; [ repeat constructor | ].
  split; [ repeat constructor | ].
  split; [ vm_compute; reflexivity | ].
  split; [ vm_compute; discriminate | ].
  split; [ vm_compute; reflexivity | ].
  split; [ vm_compute; reflexivity | ].
  split; [ vm_compute; reflexivity | ].
  split; [ vm_compute; reflexivity | ].
  split; [ vm_compute; discriminate | ].
  split; [ vm_compute; reflexivity | ].
  vm_compute; discriminate.
Qed.

(** ** Point counts that are powers of two *)

Section ExactIncrements.
Import Doubles AuthorClusteringDoubles.

(** A number [m * 2^e] with [m < 2^53] is a double: rounding returns it. *)
Lemma round64_exact (x : Q) (m e : Z) :
  (x == inject_Z m * pow2 e)%Q ->
  0 <= m < 2 ^ 53 -> -1074 <= e -> e + 53 <= 1024 ->
  exists r : Q, round64 x = Finite r /\ (r == x)%Q.
Proof.
  intros Hx [Hm0 Hm] He Hmax.
  assert (H0 : (0 <= x)%Q).
  { rewrite Hx. apply Qmult_le_0_compat; [ | apply Qlt_le_weak, pow2_pos ].
    change 0%Q with (inject_Z 0). rewrite <- Zle_Qle. exact Hm0. }
  destruct (round64_between x m e) as [r [Hr [_ Hle]]];
    [ exact H0 | rewrite Hx; apply Qle_refl | exact Hm | exact He | exact Hmax | ].
  exists r. split; [ exact Hr | ].
  apply Qle_antisym; [ rewrite Hx; exact Hle | ].
  unfold round64 in Hr. destruct (Qcompare_spec x 0) as [E | E | E].
  - injection Hr as <-. rewrite E. apply Qle_refl.
  - exfalso. apply (Qlt_irrefl 0). eapply Qle_lt_trans; eassumption.
  - cbv zeta in Hr.
    destruct (Qle_bool (pow2 1024) (round_pos x)); [ discriminate Hr | ].
    apply (f_equal value) in Hr. cbn [value] in Hr. rewrite <- Hr, Qred_correct.
    apply (round_pos_ge x x (m * 2 ^ (e - spacing x))); [ apply Qle_refl | ].
    rewrite Hx at 1. apply on_finer_grid.
    apply spacing_le; [ exact E | | exact He ].
    rewrite Hx, (Z.add_comm e 53), pow2_add.
    apply Qmult_lt_compat_r; [ apply pow2_pos | ].
    rewrite pow2_int by lia. rewrite <- Zlt_Qlt. exact Hm.
Qed.

Lemma double_zeros_total (a b c : nat) : (image_total (zeros a b c) == 0)%Q.
Proof.
  unfold image_total, zeros. apply sumQ_map_zero. intros plane Hp.
  apply repeat_spec in Hp. subst plane.
  apply sumQ_map_zero. intros px Hpx. apply repeat_spec in Hpx. subst px.
  apply sumQ_map_zero. intros v Hv. apply repeat_spec in Hv. subst v.
  reflexivity.
Qed.

Lemma on_grid_weaken (e J J' : Z) (c : nat) (img : image) :
  J <= J' -> on_grid e J c img -> on_grid e J' c img.
Proof.
  intros HJ H x y. destruct (H x y) as [a [j [Hp [Ha Hj]]]].
  exists a, j. repeat split; try assumption; lia.
Qed.

(** One loop whose increment is a power of two [2^e]: as long as fewer than
    [2^53] increments meet in a cell, every addition is exact, and the sum
    of the cells grows by the increment once per point. *)
Lemma double_loop_exact (channel : Z) (ci : nat) (r : Q) (e : Z)
  (index1 index2 : Z) (points : matrix) :
  norm_index 3 channel = Some ci ->
  (r == pow2 e)%Q -> -1074 <= e -> e + 53 <= 1024 ->
  Forall (fun s => target index1 index2 s <> None) points ->
  forall (J : Z) (img : image),
    has_shape 256 256 3 img ->
    on_grid e J ci img ->
    J + Z.of_nat (length points) < 2 ^ 53 ->
    exists img',
      for_each (accumulate channel (Finite r) index1 index2) points img = Ok img'
      /\ on_grid e (J + Z.of_nat (length points)) ci img'
      /\ (image_total img' ==
          image_total img + inject_Z (Z.of_nat (length points)) * r)%Q.
Proof.
  intros Hc Hr He Hmax.
  induction points as [ | s points IH]; intros Hin J img Hshape Hgrid HJ.
  - exists img. split; [ reflexivity | ]. split.
    + apply (on_grid_weaken e J); [ simpl; lia | exact Hgrid ].
    + simpl. ring.
  - inversion Hin as [ | s' points' Hs Hin']; subst.
    destruct (target index1 index2 s) as [[xs ys] | ] eqn:Ht; [ | contradiction ].
    destruct (double_accumulate_spec channel ci (Finite r) index1 index2 s img xs ys
                Hshape Hc Ht)
      as [img1 [Hacc [Hshape1 [Hhit [Hrest Htot]]]]].
    destruct (Hgrid xs ys) as [a [j [Hcell [Ha Hj]]]].
    cbn [length] in HJ. rewrite Nat2Z.inj_succ in HJ.
    destruct (round64_exact (a + r) (j + 1) e) as [q [Hq Hqeq]];
      [ rewrite Ha, Hr, inject_Z_plus; ring | lia | exact He | exact Hmax | ].
    rewrite Hcell in Hhit, Htot. cbn [fadd] in Hhit, Htot.
    rewrite Hq in Hhit, Htot. cbn [value] in Htot.
    assert (Hgrid1 : on_grid e (J + 1) ci img1).
    { intros x y.
      destruct (Nat.eq_dec x xs) as [-> | Hx];
        [ destruct (Nat.eq_dec y ys) as [-> | Hy] | ].
      - exists q, (j + 1). split; [ exact Hhit | ]. split; [ | lia ].
        rewrite Hqeq, Ha, Hr, inject_Z_plus. ring.
      - rewrite (Hrest xs y ci) by congruence.
        destruct (Hgrid xs y) as [a' [j' [Hp' [Ha' Hj']]]].
        exists a', j'. repeat split; try assumption; lia.
      - rewrite (Hrest x y ci) by congruence.
        destruct (Hgrid x y) as [a' [j' [Hp' [Ha' Hj']]]].
        exists a', j'. repeat split; try assumption; lia. }
    destruct (IH Hin' (J + 1) img1 Hshape1 Hgrid1) as [img' [Hloop [Hgrid' Htot']]];
      [ lia | ].
    exists img'. split; [ | split ].
    + simpl. rewrite Hacc. exact Hloop.
    + cbn [length]. rewrite Nat2Z.inj_succ.
      replace (J + Z.succ (Z.of_nat (length points)))
        with (J + 1 + Z.of_nat (length points)) by lia.
      exact Hgrid'.
    + rewrite Htot', Htot, Hqeq. cbn [length]. rewrite inject_Z_of_nat_succ. ring.
Qed.

(** [256 / 2^k] is the power of two [2^(8-k)]. *)
Lemma ratio_of_power_of_two (k : Z) :
  0 <= k -> (256 / inject_Z (2 ^ k) == inject_Z 1 * pow2 (8 - k))%Q.
Proof.
  intros Hk.
  assert (Hpos : ~ (inject_Z (2 ^ k) == 0)%Q).
  { rewrite <- pow2_int by exact Hk. intros E.
    pose proof (pow2_pos k) as Hp. rewrite E in Hp. discriminate Hp. }
  assert (H : (pow2 (8 - k) * inject_Z (2 ^ k) == 256)%Q).
  { rewrite <- pow2_int by exact Hk. rewrite <- pow2_add.
    replace (8 - k + k) with 8 by lia. reflexivity. }
  rewrite <- H. field. exact Hpos.
Qed.

(** When the number of points is a power of two, the cells of the returned
    image sum to 256 exactly. *)
Lemma double_total_of_power_of_two (states1 states2 : matrix) (index1 index2 : Z)
  (k : Z) (img : image) :
  (0 < length states1 + length states2)%nat ->
  Z.of_nat (length states1 + length states2) < 2 ^ 53 ->
  Z.of_nat (length states1 + length states2) = 2 ^ k ->
  Forall (fun s => target index1 index2 s <> None) states1 ->
  Forall (fun s => target index1 index2 s <> None) states2 ->
  generate_pca_image states1 states2 index1 index2 = Ok img ->
  (image_total img == 256)%Q.
Proof.
  intros Hn Hbig Hk H1 H2 Hrun.
  assert (Hk0 : 0 <= k).
  { destruct (Z.le_gt_cases 0 k) as [H | H]; [ exact H | ].
    rewrite (Z.pow_neg_r 2 k H) in Hk. lia. }
  assert (Hk53 : k < 53).
  { apply (Z.pow_lt_mono_r_iff 2); lia. }
  destruct (round64_exact (256 / inject_Z (Z.of_nat (length states1 + length states2)))
              1 (8 - k)) as [r0 [Hr0 Hr0eq]];
    [ rewrite Hk; apply ratio_of_power_of_two; exact Hk0
    | split; [ lia | vm_compute; reflexivity ] | lia | lia | ].
  assert (Hgrid : (r0 == pow2 (8 - k))%Q).
  { rewrite Hr0eq, Hk, (ratio_of_power_of_two k Hk0). ring. }
  unfold generate_pca_image in Hrun.
  rewrite (n_ratio_spec _ Hn Hbig), Hr0 in Hrun. cbn [Py.bind] in Hrun.
  rewrite Nat2Z.inj_add in Hbig.
  assert (Hzero : forall c, on_grid (8 - k) 0 c (zeros 256 256 3)).
  { intros c x y. exists 0%Q, 0. split; [ apply double_zeros_pixel | ].
    split; [ ring | lia ]. }
  destruct (double_loop_exact 1 1 r0 (8 - k) index1 index2 states1 eq_refl Hgrid
              ltac:(lia) ltac:(lia) H1 0 (zeros 256 256 3)
              (double_zeros_has_shape 256 256 3) (Hzero 1%nat) ltac:(lia))
    as [img1 [Hl1 [_ Htot1]]].
  destruct (double_loop_spec 1 1 (Finite r0) index1 index2 states1 eq_refl H1
              (zeros 256 256 3) (double_zeros_has_shape 256 256 3))
    as [img1' [Hl1' [Hs1 [_ Ho1]]]].
  rewrite Hl1 in Hl1'. injection Hl1' as <-.
  assert (Hgrid2 : on_grid (8 - k) 0 2 img1).
  { intros x y. rewrite (Ho1 x y 2%nat) by discriminate. apply (Hzero 2%nat). }
  destruct (double_loop_exact 2 2 r0 (8 - k) index1 index2 states2 eq_refl Hgrid
              ltac:(lia) ltac:(lia) H2 0 img1 Hs1 Hgrid2 ltac:(lia))
    as [img2 [Hl2 [_ Htot2]]].
  rewrite Hl1 in Hrun. cbn [Py.bind] in Hrun.
  rewrite Hl2 in Hrun. cbn [Py.bind] in Hrun. injection Hrun as <-.
  rewrite Htot2, Htot1, double_zeros_total, Hr0eq, Nat2Z.inj_add, inject_Z_plus.
  field. rewrite <- inject_Z_plus, <- Nat2Z.inj_add.
  intros E. unfold Qeq in E. simpl in E. lia.
Qed.

End ExactIncrements.

(** Claim C7, amended (every point increments one cell of its channel by
    [n_ratio], the double nearest to 256 divided by the total number of
    points: when the points are in range, that is when both used coordinates
    of every point exist and both pixel indices are indices of the image,
    and there are between 1 and [2^53 - 1] of them, every cell of the
    returned image holds the result of executing [+= n_ratio], in doubles
    and starting from 0, once per point of the cell's channel accumulated
    there; the cells sum to exactly 256 when the number of points is a power
    of two; a total point count of 1 yields one increment of exactly 256 at
    the point's cell and 0 everywhere else). *)
Theorem cells_hold_rounded_increments
  (states1 states2 : AuthorClusteringDoubles.matrix) (index1 index2 : Z) :
  (0 < length states1 + length states2)%nat ->
  Z.of_nat (length states1 + length states2) < 2 ^ 53 ->
  Forall (fun s => AuthorClusteringDoubles.target index1 index2 s <> None) states1 ->
  Forall (fun s => AuthorClusteringDoubles.target index1 index2 s <> None) states2 ->
  Doubles.div_int (Doubles.Finite 256) (Z.of_nat (length states1 + length states2))
  = Ok (Doubles.round64
          (256 / inject_Z (Z.of_nat (length states1 + length states2))))
  /\ exists img,
       AuthorClusteringDoubles.generate_pca_image states1 states2 index1 index2
       = Ok img
       /\ (forall x y c,
             AuthorClusteringDoubles.pixel img x y c =
             AuthorClusteringDoubles.add_times
               (AuthorClusteringDoubles.hits index1 index2 x y
                  (AuthorClusteringDoubles.drawn_in c states1 states2))
               (Doubles.round64
                  (256 / inject_Z (Z.of_nat (length states1 + length states2))))
               (Doubles.Finite 0))
       /\ (forall k : Z,
             Z.of_nat (length states1 + length states2) = 2 ^ k ->
             (AuthorClusteringDoubles.image_total img == 256)%Q)
       /\ ((length states1 + length states2 = 1)%nat ->
           forall s c x y,
             In s (AuthorClusteringDoubles.drawn_in c states1 states2) ->
             AuthorClusteringDoubles.target index1 index2 s = Some (x, y) ->
             AuthorClusteringDoubles.pixel img x y c = Doubles.Finite 256
             /\ (forall x' y' c', (x', y', c') <> (x, y, c) ->
                   AuthorClusteringDoubles.pixel img x' y' c' = Doubles.Finite 0)).
Proof.
  intros Hn Hbig H1 H2. split; [ exact (n_ratio_spec _ Hn Hbig) | ].
  destruct (double_generate_pca_image_spec states1 states2 index1 index2 Hn Hbig H1 H2)
    as [img [Hrun [_ Hpix]]].
  exists img. split; [ exact Hrun | ]. split; [ exact Hpix | ]. split.
  - intros k Hk.
    exact (double_total_of_power_of_two states1 states2 index1 index2 k img
             Hn Hbig Hk H1 H2 Hrun).
  - intros Hone s c x y Hin Ht.
    apply (double_one_point_image states1 states2 index1 index2 s c x y img);
      assumption.
Qed.

Lemma cells_hold_rounded_increments_witness :
  Doubles.div_int (Doubles.Finite 256)
    (Z.of_nat (length AuthorClusteringDoubles.example_points1
               + length AuthorClusteringDoubles.example_points2))
  = Ok (Doubles.round64
          (256 / inject_Z
                   (Z.of_nat (length AuthorClusteringDoubles.example_points1
                              + length AuthorClusteringDoubles.example_points2))))
  /\ exists img,
       AuthorClusteringDoubles.generate_pca_image
         AuthorClusteringDoubles.example_points1
         AuthorClusteringDoubles.example_points2 0 1 = Ok img
       /\ (forall x y c,
             AuthorClusteringDoubles.pixel img x y c =
             AuthorClusteringDoubles.add_times
               (AuthorClusteringDoubles.hits 0 1 x y
                  (AuthorClusteringDoubles.drawn_in c
                     AuthorClusteringDoubles.example_points1
                     AuthorClusteringDoubles.example_points2))
               (Doubles.round64
                  (256 / inject_Z
                           (Z.of_nat
                              (length AuthorClusteringDoubles.example_points1
                               + length AuthorClusteringDoubles.example_points2))))
               (Doubles.Finite 0))
       /\ (forall k : Z,
             Z.of_nat (length AuthorClusteringDoubles.example_points1
                       + length AuthorClusteringDoubles.example_points2) = 2 ^ k ->
             (AuthorClusteringDoubles.image_total img == 256)%Q)
       /\ ((length AuthorClusteringDoubles.example_points1
            + length AuthorClusteringDoubles.example_points2 = 1)%nat ->
           forall s c x y,
             In s (AuthorClusteringDoubles.drawn_in c
                     AuthorClusteringDoubles.example_points1
                     AuthorClusteringDoubles.example_points2) ->
             AuthorClusteringDoubles.target 0 1 s = Some (x, y) ->
             AuthorClusteringDoubles.pixel img x y c = Doubles.Finite 256
             /\ (forall x' y' c', (x', y', c') <> (x, y, c) ->
                   AuthorClusteringDoubles.pixel img x' y' c' = Doubles.Finite 0)).
Proof.
  apply (cells_hold_rounded_increments
           AuthorClusteringDoubles.example_points1
           AuthorClusteringDoubles.example_points2 0 1).
  - simpl. lia.
  - vm_compute. reflexivity.
  - repeat constructor; vm_compute; discriminate.
  - repeat constructor; vm_compute; discriminate.
Defined.

(* ===================================================================== *)
(** * Further properties of the image generation in doubles *)
(* ===================================================================== *)

Section DoubleOutcomes.
Import Doubles AuthorClusteringDoubles.

(** A loop of [generate_pca_image] either runs through, when every point
    has a target, or stops at the first point that has none. *)
Lemma double_loop_outcome (channel : Z) (ci : nat) (n_ratio : double)
  (index1 index2 : Z) (points : matrix) :
  norm_index 3 channel = Some ci ->
  forall img : image,
    has_shape 256 256 3 img ->
    (Forall (fun s => target index1 index2 s <> None) points
     /\ exists img',
          for_each (accumulate channel n_ratio index1 index2) points img = Ok img'
          /\ has_shape 256 256 3 img')
    \/ (~ Forall (fun s => target index1 index2 s <> None) points
        /\ exists e,
             for_each (accumulate channel n_ratio index1 index2) points img = Raise e
             /\ (e = IndexError \/ e = OverflowError \/ e = ValueError)).
Proof.
  intros Hc. induction points as [ | s points IH]; intros img Hshape.
  - left. split; [ constructor | ]. exists img. split; [ reflexivity | exact Hshape ].
  - destruct (target index1 index2 s) as [[xs ys] | ] eqn:Ht.
    + destruct (double_accumulate_spec channel ci n_ratio index1 index2 s img xs ys
                  Hshape Hc Ht) as [img1 [Hacc [Hshape1 _]]].
      destruct (IH img1 Hshape1) as [[Hall [img' [Hrun Hs']]] | [Hnot [e [Hrun He]]]].
      * left. split.
        -- constructor; [ rewrite Ht; discriminate | exact Hall ].
        -- exists img'. split; [ | exact Hs' ]. simpl. rewrite Hacc. exact Hrun.
      * right. split.
        -- intros Hall. apply Hnot. inversion Hall; assumption.
        -- exists e. split; [ | exact He ]. simpl. rewrite Hacc. exact Hrun.
    + right. split.
      * intros Hall. inversion Hall as [ | s' l' Hs _]; subst. apply Hs. exact Ht.
      * destruct (double_accumulate_raises channel n_ratio index1 index2 s img
                    Hshape Ht) as [e [Hacc He]].
        exists e. split; [ | exact He ]. simpl. rewrite Hacc. reflexivity.
Qed.

End DoubleOutcomes.

(** Property X6.  The outcome of [generate_pca_image], computed in doubles,
    for fewer than [2^53] points.  An image is returned exactly when there
    is a point and every point has a target (both used coordinates exist,
    both pixel indices are computed and are indices of the image); it has
    the shape 256 x 256 x 3.  Without a point the call raises
    [ZeroDivisionError]; with a point that has no target it raises
    [IndexError] (a coordinate is missing or a pixel index is outside the
    image), [OverflowError] (an infinite coordinate) or [ValueError] (a
    coordinate that is not a number). *)
Theorem generate_pca_image_outcome_in_doubles
  (states1 states2 : AuthorClusteringDoubles.matrix) (index1 index2 : Z) :
  Z.of_nat (length states1 + length states2) < 2 ^ 53 ->
  match AuthorClusteringDoubles.generate_pca_image states1 states2 index1 index2 with
  | Ok img =>
      (0 < length states1 + length states2)%nat
      /\ Forall (fun s => AuthorClusteringDoubles.target index1 index2 s <> None)
           (states1 ++ states2)
      /\ AuthorClusteringDoubles.has_shape 256 256 3 img
  | Raise e =>
      (e = ZeroDivisionError /\ (length states1 + length states2 = 0)%nat)
      \/ ((0 < length states1 + length states2)%nat
          /\ ~ Forall (fun s => AuthorClusteringDoubles.target index1 index2 s <> None)
                 (states1 ++ states2)
          /\ (e = IndexError \/ e = OverflowError \/ e = ValueError))
  end.
Proof.
  intros Hbig. unfold AuthorClusteringDoubles.generate_pca_image.
  destruct (Nat.eq_dec (length states1 + length states2) 0) as [E | E].
  - rewrite E. cbn. left. split; reflexivity.
  - assert (Hn : (0 < length states1 + length states2)%nat) by lia.
    rewrite (n_ratio_spec _ Hn Hbig). cbn [Py.bind].
    set (n_ratio := Doubles.round64 _).
    destruct (double_loop_outcome 1 1 n_ratio index1 index2 states1 eq_refl
                (AuthorClusteringDoubles.zeros 256 256 3)
                (double_zeros_has_shape 256 256 3))
      as [[Hall1 [img1 [Hrun1 Hs1]]] | [Hnot1 [e [Hrun1 He]]]].
    + rewrite Hrun1. cbn [Py.bind].
      destruct (double_loop_outcome 2 2 n_ratio index1 index2 states2 eq_refl img1 Hs1)
        as [[Hall2 [img2 [Hrun2 Hs2]]] | [Hnot2 [e [Hrun2 He]]]].
      * rewrite Hrun2. cbn [Py.bind].
        split; [ exact Hn | ]. split; [ | exact Hs2 ].
        apply Forall_app. split; assumption.
      * rewrite Hrun2. cbn [Py.bind]. right.
        split; [ exact Hn | ]. split; [ | exact He ].
        intros Hall. apply Forall_app in Hall. apply Hnot2. apply Hall.
    + rewrite Hrun1. cbn [Py.bind]. right.
      split; [ exact Hn | ]. split; [ | exact He ].
      intros Hall. apply Forall_app in Hall. apply Hnot1. apply Hall.
Qed.

Lemma generate_pca_image_outcome_in_doubles_witness :
  match AuthorClusteringDoubles.generate_pca_image
          [[Doubles.NaN; Doubles.Finite 0]] [] 0 1 with
  | Ok img =>
      (0 < length [[Doubles.NaN; Doubles.Finite 0]]
           + length (@nil (list Doubles.double)))%nat
      /\ Forall (fun s => AuthorClusteringDoubles.target 0 1 s <> None)
           ([[Doubles.NaN; Doubles.Finite 0]] ++ [])
      /\ AuthorClusteringDoubles.has_shape 256 256 3 img
  | Raise e =>
      (e = ZeroDivisionError
       /\ (length [[Doubles.NaN; Doubles.Finite 0]]
           + length (@nil (list Doubles.double)) = 0)%nat)
      \/ ((0 < length [[Doubles.NaN; Doubles.Finite 0]]
               + length (@nil (list Doubles.double)))%nat
          /\ ~ Forall (fun s => AuthorClusteringDoubles.target 0 1 s <> None)
                 ([[Doubles.NaN; Doubles.Finite 0]] ++ [])
          /\ (e = IndexError \/ e = OverflowError \/ e = ValueError))
  end.
Proof.
  apply (generate_pca_image_outcome_in_doubles
           [[Doubles.NaN; Doubles.Finite 0]] [] 0 1).
  vm_compute. reflexivity.
Defined.

(** Property X20.  Points outside the image are not skipped.  A coordinate
    that is not a number raises [ValueError]; an infinite one raises
    [OverflowError], and so does the finite coordinate [2^1023], whose
    product with 128 overflows; the coordinate 1 raises [IndexError]; the
    coordinate [-259/256], just below -1, has pixel index -1 and is drawn in
    the last row (a negative index counts from the end). *)
Theorem coordinates_outside_the_image :
  AuthorClusteringDoubles.generate_pca_image
    [[Doubles.NaN; Doubles.Finite 0]] [] 0 1 = Raise ValueError
  /\ AuthorClusteringDoubles.generate_pca_image
       [[Doubles.Infinite false; Doubles.Finite 0]] [] 0 1 = Raise OverflowError
  /\ AuthorClusteringDoubles.generate_pca_image
       [[Doubles.Finite (Doubles.pow2 1023); Doubles.Finite 0]] [] 0 1
     = Raise OverflowError
  /\ AuthorClusteringDoubles.generate_pca_image
       [[Doubles.Finite 1; Doubles.Finite 0]] [] 0 1 = Raise IndexError
  /\ AuthorClusteringDoubles.pixel_index (Doubles.Finite (- (259 # 256))) = Ok (-1)
  /\ AuthorClusteringDoubles.target 0 1
       [Doubles.Finite (- (259 # 256)); Doubles.Finite 0] = Some (255, 128)%nat.
Proof. repeat split; vm_compute; reflexivity. Qed.
